(** * A retrieval pipeline over uploaded documents: [server.js]

    Shallow embedding of the chunker ([chunkText]), the word-count
    vectorizer ([simpleEmbedding]), the cosine ranker ([cosineSimilarity]
    and the sort of the [/ask] handler) and the in-memory [documentStore]
    with its two handlers, followed by the properties of the design
    document that they settle.

    Conventions of the embedding.
    - A JavaScript string is a [string]: a sequence of code units, each
      modelled by one 8-bit character (the Latin-1 range of UTF-16 code
      units).  [.length] is [String.length].
    - A JavaScript number is an IEEE-754 binary64 value, [spec_float] with
      precision 53 and maximal exponent 1024 and the operations of
      [SpecFloat].  Integer quantities that the code only counts or compares
      (sizes, indices, the clock) are [Z] or [nat].
    - The [Map] behind [documentStore] is a [gmap string DocRecord]. *)

From Stdlib Require Import ZArith List Bool Ascii String Lia Sorted.
From Stdlib Require Import Floats.SpecFloat.
From Stdlib Require DecimalString DecimalPos DecimalZ.
From stdpp Require Import gmap strings.
Import ListNotations.

Local Open Scope Z_scope.

(** ** Strings *)

Module JsString.

(** U+000A, the only character the paragraph pattern looks for. *)
Definition LF : ascii := "010"%char.
Definition SP : ascii := " "%char.

Definition is_lf (c : ascii) : bool := Ascii.eqb c LF.

(** [WhiteSpace] and [LineTerminator] of ECMAScript within the 8-bit range:
    TAB, LF, VT, FF, CR, SPACE and NO-BREAK SPACE. *)
Definition is_space (c : ascii) : bool :=
  let n := nat_of_ascii c in
  ((9 <=? n) && (n <=? 13) || (n =? 32) || (n =? 160))%nat.

Definition starts_with_lf (s : string) : bool :=
  match s with
  | String c _ => is_lf c
  | EmptyString => false
  end.

(** [s.split(/\n\n+/)].  The pattern matches, at the leftmost position
    where two line feeds begin, the whole run of line feeds (the [+] is
    greedy); a single line feed is ordinary text.  [insep] says that the
    scan is inside such a run; [cur] is the piece being collected. *)
Fixpoint split_paragraphs_from (insep : bool) (cur : string) (s : string)
  : list string :=
  match s with
  | EmptyString => [cur]
  | String c s' =>
      if insep && is_lf c then split_paragraphs_from true cur s'
      else if is_lf c && starts_with_lf s'
           then cur :: split_paragraphs_from true EmptyString s'
           else split_paragraphs_from false (cur +:+ String c EmptyString) s'
  end.

Definition split_paragraphs (s : string) : list string :=
  split_paragraphs_from false EmptyString s.

(** [s.split(sep)] for a one-character separator. *)
Fixpoint split_char_from (sep : ascii) (cur : string) (s : string)
  : list string :=
  match s with
  | EmptyString => [cur]
  | String c s' =>
      if Ascii.eqb c sep
      then cur :: split_char_from sep EmptyString s'
      else split_char_from sep (cur +:+ String c EmptyString) s'
  end.

Definition split_char (sep : ascii) (s : string) : list string :=
  split_char_from sep EmptyString s.

(** [l.join(sep)]. *)
Fixpoint join (sep : string) (l : list string) : string :=
  match l with
  | [] => EmptyString
  | [x] => x
  | x :: rest => x +:+ sep +:+ join sep rest
  end.

Fixpoint trimStart (s : string) : string :=
  match s with
  | String c s' => if is_space c then trimStart s' else s
  | EmptyString => EmptyString
  end.

Fixpoint trimEnd (s : string) : string :=
  match s with
  | String c s' =>
      match trimEnd s' with
      | EmptyString => if is_space c then EmptyString else String c EmptyString
      | t => String c t
      end
  | EmptyString => EmptyString
  end.

(** [s.trim()]. *)
Definition trim (s : string) : string := trimEnd (trimStart s).

(** A string in a condition: the empty string is the only falsy one. *)
Definition truthy (s : string) : bool :=
  match s with
  | EmptyString => false
  | String _ _ => true
  end.

End JsString.

(** ** Arrays *)

Module JsArray.

(** [l.slice(start)]: a negative [start] counts from the end, and both
    directions are clamped to the array. *)
Definition slice_from {A : Type} (start : Z) (l : list A) : list A :=
  let len := Z.of_nat (List.length l) in
  let k := if start <? 0 then Z.max (len + start) 0 else Z.min start len in
  skipn (Z.to_nat k) l.

(** [l.slice(0, stop)]. *)
Definition slice_to {A : Type} (stop : Z) (l : list A) : list A :=
  let len := Z.of_nat (List.length l) in
  let final := if stop <? 0 then Z.max (len + stop) 0 else Z.min stop len in
  firstn (Z.to_nat final) l.

End JsArray.

(** ** The chunker *)

Record Chunk : Type := mkChunk { id : nat; text : string }.

(** The three variables the loop of [chunkText] updates. *)
Record ChunkLoop : Type := mkChunkLoop {
  chunks_so_far : list Chunk;
  currentChunk : string;
  chunkIndex : nat
}.

(** The test that closes a segment:
    [(currentChunk + para).length > chunkSize && currentChunk.length > 0]. *)
Definition closes (chunkSize : Z) (cur para : string) : bool :=
  (Z.of_nat (String.length (cur +:+ para)) >? chunkSize)
  && (0 <? Z.of_nat (String.length cur)).

(** The buffer that follows a closed one:
    [words.slice(-Math.floor(overlap / 5)).join(' ') + ' ' + para]. *)
Definition overlap_seed (overlap : Z) (cur : string) : string :=
  let words := JsString.split_char JsString.SP cur in
  let overlapWords := JsArray.slice_from (- (overlap / 5)) words in
  JsString.join " " overlapWords.

Definition next_buffer (overlap : Z) (cur para : string) : string :=
  overlap_seed overlap cur +:+ " " +:+ para.

(** One iteration of [for (const para of paragraphs)]. *)
Definition chunk_step (chunkSize overlap : Z) (st : ChunkLoop) (para : string)
  : ChunkLoop :=
  let cur := currentChunk st in
  if closes chunkSize cur para then
    {| chunks_so_far :=
         chunks_so_far st ++ [mkChunk (chunkIndex st) (JsString.trim cur)];
       currentChunk := next_buffer overlap cur para;
       chunkIndex := S (chunkIndex st) |}
  else
    {| chunks_so_far := chunks_so_far st;
       currentChunk :=
         cur +:+ (if JsString.truthy cur
                  then String JsString.LF (String JsString.LF EmptyString)
                  else EmptyString) +:+ para;
       chunkIndex := chunkIndex st |}.

(** The final flush: [if (currentChunk.trim()) chunks.push(...)]. *)
Definition chunk_flush (st : ChunkLoop) : list Chunk :=
  if JsString.truthy (JsString.trim (currentChunk st))
  then chunks_so_far st ++ [mkChunk (chunkIndex st) (JsString.trim (currentChunk st))]
  else chunks_so_far st.

Definition chunk_init : ChunkLoop :=
  {| chunks_so_far := []; currentChunk := EmptyString; chunkIndex := 0%nat |}.

Definition chunkText (text : string) (chunkSize overlap : Z) : list Chunk :=
  chunk_flush
    (fold_left (chunk_step chunkSize overlap)
               (JsString.split_paragraphs text) chunk_init).

(** ** Numbers *)

Module JsNumber.

(** The arithmetic [cosineSimilarity] uses.  [num_nan] is what
    [ToNumber(undefined)] gives. *)
Class Arith (num : Type) : Type := {
  num_zero : num;
  num_add : num -> num -> num;
  num_mul : num -> num -> num;
  num_div : num -> num -> num;
  num_sqrt : num -> num;
  num_nan : num
}.

(** The arithmetic of the program: binary64, round to nearest even. *)
#[export] Instance binary64 : Arith spec_float := {|
  num_zero := S754_zero false;
  num_add := SFadd 53 1024;
  num_mul := SFmul 53 1024;
  num_div := SFdiv 53 1024;
  num_sqrt := SFsqrt 53 1024;
  num_nan := S754_nan
|}.

Definition of_Z (z : Z) : spec_float := binary_normalize 53 1024 z 0 false.

Definition is_nan (x : spec_float) : bool :=
  match x with
  | S754_nan => true
  | _ => false
  end.

Definition is_zero (x : spec_float) : bool :=
  match x with
  | S754_zero _ => true
  | _ => false
  end.

(** The values a sum of products with a zero factor can take. *)
Definition zero_or_nan (x : spec_float) : bool := is_zero x || is_nan x.

(** A number that is neither a zero, nor an infinity, nor NaN. *)
Definition is_finite (x : spec_float) : bool :=
  match x with
  | S754_finite _ _ _ => true
  | _ => false
  end.

End JsNumber.

Import JsNumber.

(** ** The similarity score *)

Section Cosine.

Context {num : Type} {arith : Arith num}.

(** [b[i]] under a multiplication: past the end the read gives
    [undefined], which the product converts to NaN. *)
Definition at_index (b : list num) (i : nat) : num :=
  match b !! i with
  | Some x => x
  | None => num_nan
  end.

(** [a.reduce((sum, val, i) => sum + val * b[i], 0)], from index [i]. *)
Fixpoint reduce_dot (a b : list num) (i : nat) (sum : num) : num :=
  match a with
  | [] => sum
  | val :: a' => reduce_dot a' b (S i) (num_add sum (num_mul val (at_index b i)))
  end.

(** [a.reduce((sum, val) => sum + val * val, 0)]. *)
Definition reduce_squares (a : list num) : num :=
  fold_left (fun sum val => num_add sum (num_mul val val)) a num_zero.

Definition cosineSimilarity (a b : list num) : num :=
  let dotProduct := reduce_dot a b 0%nat num_zero in
  let magA := num_sqrt (reduce_squares a) in
  let magB := num_sqrt (reduce_squares b) in
  num_div dotProduct (num_mul magA magB).

End Cosine.

(** ** Tokens *)

Module Tokens.

Definition in_range (lo hi n : nat) : bool := ((lo <=? n) && (n <=? hi))%nat.

(** [\w]: ASCII letters, digits and the underscore. *)
Definition is_word (c : ascii) : bool :=
  let n := nat_of_ascii c in
  in_range 48 57 n || in_range 65 90 n || (n =? 95)%nat || in_range 97 122 n.

(** [toLowerCase] on one code unit of the 8-bit range: A-Z and the
    Latin-1 capitals (all but the multiplication sign) move up by 32. *)
Definition lower_char (c : ascii) : ascii :=
  let n := nat_of_ascii c in
  if in_range 65 90 n || (in_range 192 222 n && negb (n =? 215)%nat)
  then ascii_of_nat (n + 32)
  else c.

Fixpoint toLowerCase (s : string) : string :=
  match s with
  | String c s' => String (lower_char c) (toLowerCase s')
  | EmptyString => EmptyString
  end.

Definition is_word_at (o : option ascii) : bool :=
  match o with
  | Some c => is_word c
  | None => false
  end.

(** The assertion [\b] between the character before the position and
    the character at it (either may be missing at the ends). *)
Definition boundary (prev next : option ascii) : bool :=
  xorb (is_word_at prev) (is_word_at next).

Definition first_char (s : string) : option ascii :=
  match s with
  | String c _ => Some c
  | EmptyString => None
  end.

(** The rest of [\w+\b] once one word character [prev] is taken: the
    quantifier is greedy and gives characters back, one at a time, until
    the assertion holds. *)
Fixpoint word_rest (prev : ascii) (s : string) : option string :=
  match s with
  | String c s' =>
      if is_word c then
        match word_rest c s' with
        | Some m => Some (String c m)
        | None =>
            if boundary (Some prev) (Some c) then Some EmptyString else None
        end
      else if boundary (Some prev) (Some c) then Some EmptyString else None
  | EmptyString =>
      if boundary (Some prev) None then Some EmptyString else None
  end.

(** [\b\w+\b] tried at the position where [s] starts. *)
Definition word_here (prev : option ascii) (s : string) : option string :=
  match s with
  | String c s' =>
      if boundary prev (Some c) && is_word c
      then option_map (String c) (word_rest c s')
      else None
  | EmptyString => None
  end.

(** The global search: after a match the search resumes where the match
    ended, so the [skip] characters of a match are passed over. *)
Fixpoint match_words_from (prev : option ascii) (skip : nat) (s : string)
  : list string :=
  match s with
  | EmptyString => []
  | String c s' =>
      match skip with
      | S k => match_words_from (Some c) k s'
      | O =>
          match word_here prev s with
          | Some m => m :: match_words_from (Some c) (String.length m - 1) s'
          | None => match_words_from (Some c) 0 s'
          end
      end
  end.

(** [s.match(/\b\w+\b/g) || []]. *)
Definition match_words (s : string) : list string :=
  match_words_from None 0 s.

(** [text.toLowerCase().match(/\b\w+\b/g) || []]. *)
Definition tokens (text : string) : list string :=
  match_words (toLowerCase text).

(** [new Set(words)], read back with the spread: insertion order, each
    value once. *)
Definition set_add (seen : list string) (w : string) : list string :=
  if existsb (String.eqb w) seen then seen else seen ++ [w].

Definition set_of (words : list string) : list string :=
  fold_left set_add words [].

End Tokens.

(** ** The vectorizer *)

(** What a property of [wordCounts], or an entry of a vector, can hold: a
    number, or a value that is no number.  The second kind arises only from
    a property every object inherits (see [get_property]): a function, an
    object, or the string either becomes under [+ 1].  All of these are
    truthy and convert to NaN in arithmetic, which is all the program does
    with them. *)
Inductive JsValue : Type :=
| Number (x : spec_float)
| NonNumeric.

Definition ToNumber (v : JsValue) : spec_float :=
  match v with
  | Number x => x
  | NonNumeric => S754_nan
  end.

Definition value_truthy (v : JsValue) : bool :=
  match v with
  | Number x => negb (is_zero x || is_nan x)
  | NonNumeric => true
  end.

(** [v || 0], where [None] is [undefined]. *)
Definition or_zero (v : option JsValue) : JsValue :=
  match v with
  | Some v => if value_truthy v then v else Number (of_Z 0)
  | None => Number (of_Z 0)
  end.

(** [v + 1]: an addition of numbers, a concatenation otherwise. *)
Definition plus_one (v : JsValue) : JsValue :=
  match v with
  | Number x => Number (SFadd 53 1024 x (of_Z 1))
  | NonNumeric => NonNumeric
  end.

(** The property names an object literal inherits from [Object.prototype].
    All but [__proto__] hold functions; [__proto__] is an accessor. *)
Definition object_prototype_names : list string :=
  ["constructor"; "__defineGetter__"; "__defineSetter__"; "hasOwnProperty";
   "__lookupGetter__"; "__lookupSetter__"; "isPrototypeOf";
   "propertyIsEnumerable"; "toString"; "valueOf"; "__proto__";
   "toLocaleString"].

Definition on_prototype (name : string) : bool :=
  existsb (String.eqb name) object_prototype_names.

(** [wordCounts[name]] on an object literal with the own properties [own]:
    [__proto__] is an accessor and always reads the prototype. *)
Definition get_property (own : gmap string JsValue) (name : string)
  : option JsValue :=
  if String.eqb name "__proto__" then Some NonNumeric
  else match own !! name with
       | Some v => Some v
       | None => if on_prototype name then Some NonNumeric else None
       end.

(** [wordCounts[name] = v]: the accessor [__proto__] ignores a value that is
    no object, any other name becomes an own property. *)
Definition set_property (own : gmap string JsValue) (name : string) (v : JsValue)
  : gmap string JsValue :=
  if String.eqb name "__proto__" then own else <[name := v]> own.

(** [wordCounts[word] = (wordCounts[word] || 0) + 1]. *)
Definition count_word (wordCounts : gmap string JsValue) (word : string)
  : gmap string JsValue :=
  set_property wordCounts word (plus_one (or_zero (get_property wordCounts word))).

(** [vocabulary.forEach((word, idx) => vector[idx] = wordCounts[word] || 0)],
    from index [idx]. *)
Fixpoint fill_vector (wordCounts : gmap string JsValue) (idx : nat)
  (vocabulary : list string) (vector : list JsValue) : list JsValue :=
  match vocabulary with
  | [] => vector
  | word :: rest =>
      fill_vector wordCounts (S idx) rest
        (<[idx := or_zero (get_property wordCounts word)]> vector)
  end.

(** An array is truthy even when empty, so a vocabulary that is passed is
    the one used. *)
Definition simpleEmbedding (text : string) (vocabulary : option (list string))
  : list JsValue * list string :=
  let words := Tokens.tokens text in
  let vocabulary :=
    match vocabulary with
    | Some v => v
    | None => Tokens.set_of words
    end in
  let vector := replicate (List.length vocabulary) (Number (of_Z 0)) in
  let wordCounts := fold_left count_word words ∅ in
  (fill_vector wordCounts 0 vocabulary vector, vocabulary).

(** The vocabulary of a document.  In the source this is the [allWords]
    expression of the upload handler, with the literal 500 for [maxTerms]. *)
Definition buildVocabulary (chunks : list Chunk) (maxTerms : Z) : list string :=
  let allWords := flat_map (fun chunk => Tokens.tokens (text chunk)) chunks in
  JsArray.slice_to maxTerms (Tokens.set_of allWords).

(** ** The document store *)

Record IndexedChunk : Type := mkIndexedChunk {
  chunk_id : nat;
  chunk_text : string;
  embedding : list JsValue
}.

Record DocRecord : Type := mkDocRecord {
  chunks : list IndexedChunk;
  vocabulary : list string;
  pages : Z;
  totalChunks : nat
}.

(** The responses of the two handlers, by status. *)
Inductive Response : Type :=
| Status400 (error : string)
| Status404 (error : string)
| Status500 (error : string)
| UploadOk (docId : string) (pages : Z) (chunks : nat) (message : string)
| AskOk (answer : string) (chunksUsed : nat) (contextSize : nat).

Definition MissingInput : Response := Status400 "Missing question or document ID".
Definition DocumentNotFound : Response :=
  Status404 "Document not found. Please re-upload.".

(** [n.toString()] for an integer. *)
Definition toString (n : Z) : string :=
  DecimalString.NilZero.string_of_int (Z.to_int n).

(** What [pdfParse] makes of the uploaded buffer. *)
Inductive Parsed : Type :=
| ParseFailed (message : string)
| ParsedPdf (text : string) (numpages : Z).

Definition index_chunk (vocabulary : list string) (chunk : Chunk) : IndexedChunk :=
  {| chunk_id := id chunk;
     chunk_text := text chunk;
     embedding := fst (simpleEmbedding (text chunk) (Some vocabulary)) |}.

(** The record the upload handler stores for an extracted text. *)
Definition make_record (text : string) (numpages : Z) : DocRecord :=
  let chunks := chunkText text 800 150 in
  let vocabulary := buildVocabulary chunks 500 in
  {| chunks := map (index_chunk vocabulary) chunks;
     vocabulary := vocabulary;
     pages := numpages;
     totalChunks := List.length chunks |}.

(** [POST /upload].  [file] is [req.file] with the outcome of parsing it,
    [now] the reading of [Date.now()]. *)
Definition upload (now : Z) (file : option Parsed)
  (documentStore : gmap string DocRecord) : gmap string DocRecord * Response :=
  match file with
  | None => (documentStore, Status400 "No file uploaded")
  | Some (ParseFailed message) =>
      (documentStore, Status500 ("Failed to process PDF: " +:+ message))
  | Some (ParsedPdf text numpages) =>
      let doc := make_record text numpages in
      let docId := toString now in
      (<[docId := doc]> documentStore,
       UploadOk docId numpages (totalChunks doc)
         ("Processed " +:+ toString numpages +:+ " pages into "
          +:+ toString (Z.of_nat (totalChunks doc)) +:+ " searchable chunks"))
  end.

(** The stores the server can hold: it starts empty and only [upload]
    writes to it. *)
Inductive reachable : gmap string DocRecord -> Prop :=
| reachable_start : reachable ∅
| reachable_upload now file documentStore :
    reachable documentStore -> reachable (fst (upload now file documentStore)).

(** ** Ranking *)

Record ScoredChunk : Type := mkScoredChunk {
  scored : IndexedChunk;
  similarity : spec_float
}.

(** [{ ...chunk, similarity: cosineSimilarity(questionVector, chunk.embedding) }];
    the products inside the score convert every entry to a number. *)
Definition score_chunk (questionVector : list JsValue) (chunk : IndexedChunk)
  : ScoredChunk :=
  {| scored := chunk;
     similarity :=
       cosineSimilarity (map ToNumber questionVector)
                        (map ToNumber (embedding chunk)) |}.

(** [(a, b) => b.similarity - a.similarity]. *)
Definition comparator (a b : ScoredChunk) : spec_float :=
  SFsub 53 1024 (similarity b) (similarity a).

Module ArraySort.

(** [Array.prototype.sort] reads only the sign of what the comparison
    function returns, and takes NaN for [+0]. *)
Definition positive (v : spec_float) : bool := SFltb (S754_zero false) v.

(** The sort is stable by specification.  It is modelled as an insertion
    sort: an element moves behind its right neighbours only as long as the
    comparison function puts it strictly after them.  For a comparison
    function that is consistent in the sense of ECMAScript ([consistent]
    below) there is one sorted, stable order and every conforming sort
    returns it; for any other function ECMAScript leaves the order to the
    implementation, and the model gives one order that is allowed. *)
Fixpoint insert {A : Type} (comparefn : A -> A -> spec_float) (x : A)
  (sorted : list A) : list A :=
  match sorted with
  | [] => [x]
  | y :: rest =>
      if positive (comparefn x y) then y :: insert comparefn x rest
      else x :: sorted
  end.

Definition sort {A : Type} (comparefn : A -> A -> spec_float) (l : list A)
  : list A :=
  fold_right (insert comparefn) [] l.

(** The order a comparison function asks for: [x] is to go after [y], or
    the two are tied. *)
Definition goes_after {A : Type} (comparefn : A -> A -> spec_float) (x y : A)
  : bool :=
  positive (comparefn x y).

Definition tied {A : Type} (comparefn : A -> A -> spec_float) (x y : A) : bool :=
  negb (goes_after comparefn x y) && negb (goes_after comparefn y x).

(** [x] may stand before [y]. *)
Definition in_order {A : Type} (comparefn : A -> A -> spec_float) (x y : A)
  : Prop :=
  goes_after comparefn x y = false.

(** The other two outcomes of a comparison: a result below zero, and a
    result that is zero. *)
Definition goes_before {A : Type} (comparefn : A -> A -> spec_float) (x y : A)
  : bool :=
  SFltb (comparefn x y) (S754_zero false).

Definition level {A : Type} (comparefn : A -> A -> spec_float) (x y : A)
  : bool :=
  SFeqb (comparefn x y) (S754_zero false).

(** A consistent comparison function, as ECMAScript defines it: the result
    is never NaN, being level is reflexive, symmetric and transitive, and
    going before and going after are transitive. *)
Record consistent {A : Type} (comparefn : A -> A -> spec_float) : Prop :=
  mkConsistent {
    never_nan : forall x y, is_nan (comparefn x y) = false;
    level_refl : forall x, level comparefn x x = true;
    level_sym : forall x y, level comparefn x y = true -> level comparefn y x = true;
    level_trans : forall x y z,
      level comparefn x y = true -> level comparefn y z = true ->
      level comparefn x z = true;
    before_trans : forall x y z,
      goes_before comparefn x y = true -> goes_before comparefn y z = true ->
      goes_before comparefn x z = true;
    after_trans : forall x y z,
      goes_after comparefn x y = true -> goes_after comparefn y z = true ->
      goes_after comparefn x z = true
  }.

End ArraySort.

(** The ranking of the [/ask] handler, which takes [topK] to be 3. *)
Definition rank (questionVector : list JsValue) (candidates : list IndexedChunk)
  (topK : Z) : list ScoredChunk :=
  let scoredChunks := map (score_chunk questionVector) candidates in
  JsArray.slice_to topK (ArraySort.sort comparator scoredChunks).

(** ** Answering *)

Definition lines (l : list string) : string :=
  JsString.join (String JsString.LF EmptyString) l.

Definition quoted (s : string) : string :=
  String "034"%char s +:+ String "034"%char EmptyString.

(** The separator of the retrieved sections. *)
Definition section_separator : string := lines [""; ""; "---"; ""; ""].

(** The template literal of the handler. *)
Definition prompt_of (context question : string) : string :=
  lines [
    "You are a helpful, friendly assistant answering questions about a document. ";
    "";
    "Here are the most relevant sections from the document:";
    "";
    "<document>";
    context;
    "</document>";
    "";
    "Please answer the user's question in a natural, conversational way:";
    "- Explain the information clearly and concisely";
    "- Use bullet points only when listing multiple items makes it clearer";
    "- Organize the information logically";
    "- If there are specific requirements or rules, present them in an easy-to-understand format";
    "- Be helpful and direct - avoid unnecessary preambles like "
      +:+ quoted "Based on the document...";
    "- If the answer isn't in these sections, politely say so and suggest what information might be needed";
    "";
    "Question: " +:+ question;
    "";
    "Answer:"
  ].

(** The body of a request to [/ask]: each field is a string or absent. *)
Record AskBody : Type := mkAskBody {
  question : option string;
  docId : option string
}.

(** [!field]: absent, or the empty string. *)
Definition missing (field : option string) : bool :=
  match field with
  | Some s => negb (JsString.truthy s)
  | None => true
  end.

(** How the call to the completion capability ends: the text of the first
    content block of the reply, or the message of what was thrown. *)
Inductive Completion : Type :=
| Replied (answer : string)
| Rejected (message : string).

(** A run of the handler: it responds at once, or it sends one prompt to
    the completion capability and responds when the call has ended. *)
Inductive Handler : Type :=
| Respond (r : Response)
| Await (prompt : string) (resume : Completion -> Response).

(** The capability is reached exactly by the runs that await it. *)
Definition calls_completion (h : Handler) : bool :=
  match h with
  | Respond _ => false
  | Await _ _ => true
  end.

(** The response of a run, given how the capability would answer. *)
Definition response_of (h : Handler) (outcome : string -> Completion) : Response :=
  match h with
  | Respond r => r
  | Await prompt resume => resume (outcome prompt)
  end.

(** [POST /ask]. *)
Definition ask (body : AskBody) (documentStore : gmap string DocRecord) : Handler :=
  if missing (question body) || missing (docId body) then Respond MissingInput
  else
    match question body, docId body with
    | Some question, Some docId =>
        match documentStore !! docId with
        | None => Respond DocumentNotFound
        | Some doc =>
            let questionVector :=
              fst (simpleEmbedding question (Some (vocabulary doc))) in
            let topChunks := rank questionVector (chunks doc) 3 in
            let context :=
              JsString.join section_separator
                (map (fun c => chunk_text (scored c)) topChunks) in
            Await (prompt_of context question)
              (fun outcome =>
                 match outcome with
                 | Replied answer =>
                     AskOk answer (List.length topChunks) (String.length context)
                 | Rejected message =>
                     Status500 (if JsString.truthy message then message
                                else "Failed to get answer from AI")
                 end)
        end
    | _, _ => Respond MissingInput
    end.

(** ** The notions of the design document

    Definitions that follow the words of the design document rather than
    the code; the theorems below compare the code with them. *)

Module Reference.

Definition singleton_if_any (cur : string) : list string :=
  if JsString.truthy cur then [cur] else [].

(** The whitespace-delimited words of a string. *)
Fixpoint words_from (cur : string) (s : string) : list string :=
  match s with
  | EmptyString => singleton_if_any cur
  | String c s' =>
      if JsString.is_space c
      then singleton_if_any cur ++ words_from EmptyString s'
      else words_from (cur +:+ String c EmptyString) s'
  end.

Definition whitespace_words (s : string) : list string :=
  words_from EmptyString s.

(** The trailing [n] elements of a list (all of it when it is shorter). *)
Definition trailing {A : Type} (n : nat) (l : list A) : list A :=
  skipn (List.length l - n) l.

(** The overlap the document describes: the trailing
    [floor(overlapBudget / 5)] whitespace-delimited words of the closed
    buffer, joined with single spaces. *)
Definition described_seed (overlapBudget : Z) (closed : string) : string :=
  JsString.join " "
    (trailing (Z.to_nat (overlapBudget / 5)) (whitespace_words closed)).

(** The maximal runs, in a string, of the characters of a class [word]. *)
Fixpoint runs_from (word : ascii -> bool) (cur : string) (s : string)
  : list string :=
  match s with
  | EmptyString => singleton_if_any cur
  | String c s' =>
      if word c
      then runs_from word (cur +:+ String c EmptyString) s'
      else singleton_if_any cur ++ runs_from word EmptyString s'
  end.

(** The word characters as the document lists them: letters, digits and
    the underscore. *)
Definition lower_letters : string := "abcdefghijklmnopqrstuvwxyz".
Definition upper_letters : string := "ABCDEFGHIJKLMNOPQRSTUVWXYZ".
Definition digit_characters : string := "0123456789".

Fixpoint occurs (c : ascii) (s : string) : bool :=
  match s with
  | String a s' => Ascii.eqb c a || occurs c s'
  | EmptyString => false
  end.

Definition word_character (c : ascii) : bool :=
  occurs c lower_letters || occurs c upper_letters
  || occurs c digit_characters || Ascii.eqb c "_".

(** Lower-casing: a capital letter becomes the small letter at the same
    place of the alphabet, an accented capital of the 8-bit range (code 192
    to 222, the multiplication sign apart) the accented small letter 32
    places on, and every other character stays. *)
Fixpoint counterpart (c : ascii) (from to : string) : option ascii :=
  match from, to with
  | String a from', String b to' =>
      if Ascii.eqb c a then Some b else counterpart c from' to'
  | _, _ => None
  end.

Definition lower_case_char (c : ascii) : ascii :=
  match counterpart c upper_letters lower_letters with
  | Some small => small
  | None =>
      let n := N_of_ascii c in
      if ((192 <=? n) && (n <=? 222) && negb (n =? 215))%N
      then ascii_of_N (n + 32)
      else c
  end.

Fixpoint lower_case (s : string) : string :=
  match s with
  | String c s' => String (lower_case_char c) (lower_case s')
  | EmptyString => EmptyString
  end.

(** The maximal runs of word characters of a string. *)
Definition word_runs (s : string) : list string :=
  runs_from word_character EmptyString s.

(** The longest prefix of characters that [\w] matches, and what follows
    it. *)
Fixpoint word_prefix (s : string) : string :=
  match s with
  | String c s' => if Tokens.is_word c then String c (word_prefix s') else EmptyString
  | EmptyString => EmptyString
  end.

Fixpoint after_word_prefix (s : string) : string :=
  match s with
  | String c s' => if Tokens.is_word c then after_word_prefix s' else s
  | EmptyString => EmptyString
  end.

(** Keep the first occurrence of every element, in order. *)
Fixpoint dedup_first (l : list string) : list string :=
  match l with
  | [] => []
  | x :: rest =>
      x :: List.filter (fun y => negb (String.eqb y x)) (dedup_first rest)
  end.

(** The vocabulary the document describes. *)
Definition described_vocabulary (texts : list string) (maxTerms : nat)
  : list string :=
  firstn maxTerms
    (dedup_first (flat_map (fun t => word_runs (lower_case t)) texts)).

(** The invariant of a document record. *)
Definition record_ok (doc : DocRecord) : Prop :=
  Forall (fun c => List.length (embedding c) = List.length (vocabulary doc))
         (chunks doc)
  /\ (List.length (vocabulary doc) <= 500)%nat.

End Reference.

(** ** Sample data *)

Module Sample.

Definition paragraph_break : string :=
  String JsString.LF (String JsString.LF EmptyString).

(** A vector of small counts. *)
Definition counts (v : list Z) : list JsValue := map (fun z => Number (of_Z z)) v.

(** An indexed segment with the given number and vector. *)
Definition segment (i : nat) (v : list Z) : IndexedChunk :=
  mkIndexedChunk i EmptyString (counts v).

(** The store after one upload of a two-paragraph document at clock
    reading 9. *)
Definition store_with_mammals : gmap string DocRecord :=
  fst (upload 9
         (Some (ParsedPdf ("Cats are mammals." +:+ paragraph_break
                           +:+ "Dogs are mammals too.") 1)) ∅).

(** [n + 1] asterisks separated by single spaces: text without a word
    character, 801 code units long for [n = 400]. *)
Fixpoint stars (n : nat) : string :=
  match n with
  | O => "*"
  | S k => "* " +:+ stars k
  end.

(** Four paragraphs, each longer than the chunk size; only the first and
    the last contain words. *)
Definition long_document : string :=
  "cats dogs " +:+ stars 400 +:+ paragraph_break
  +:+ stars 400 +:+ paragraph_break
  +:+ stars 400 +:+ paragraph_break
  +:+ "cats " +:+ stars 400.

(** The store after one upload of that document at clock reading 11. *)
Definition store_with_long_document : gmap string DocRecord :=
  fst (upload 11 (Some (ParsedPdf long_document 4)) ∅).

(** The ranking the [/ask] handler computes for a question on a stored
    document: the numbers and the scores of the segments it keeps. *)
Definition ranking_for (documentStore : gmap string DocRecord)
  (docId question : string) : list (nat * spec_float) :=
  match documentStore !! docId with
  | Some doc =>
      map (fun c => (chunk_id (scored c), similarity c))
          (rank (fst (simpleEmbedding question (Some (vocabulary doc))))
                (chunks doc) 3)
  | None => []
  end.

(** The store after one upload of an empty document at clock reading 7. *)
Definition store_with_empty_document : gmap string DocRecord :=
  fst (upload 7 (Some (ParsedPdf EmptyString 0)) ∅).

End Sample.

(** ** Notions used to state further properties *)

Module Shape.

Definition starts_with_space (s : string) : bool :=
  match s with
  | String c _ => JsString.is_space c
  | EmptyString => false
  end.

(** The last character of [s] satisfies [P]. *)
Fixpoint ends_with (P : ascii -> bool) (s : string) : bool :=
  match s with
  | EmptyString => false
  | String c s' =>
      match s' with
      | EmptyString => P c
      | String _ _ => ends_with P s'
      end
  end.

(** A string that [trim] has nothing to cut from. *)
Definition trimmed (s : string) : Prop :=
  starts_with_space s = false /\ ends_with JsString.is_space s = false.

Fixpoint all_chars (P : ascii -> bool) (s : string) : bool :=
  match s with
  | EmptyString => true
  | String c s' => P c && all_chars P s'
  end.

(** Two line feeds in a row somewhere in [s]. *)
Fixpoint has_blank_line (s : string) : bool :=
  match s with
  | String c s' =>
      (JsString.is_lf c && JsString.starts_with_lf s') || has_blank_line s'
  | EmptyString => false
  end.

(** The code units a list of paragraphs takes when each is followed by a
    two-character separator. *)
Fixpoint paragraphs_size (l : list string) : nat :=
  match l with
  | [] => 0
  | p :: rest => 2 + String.length p + paragraphs_size rest
  end.

Definition is_upper (c : ascii) : bool :=
  Tokens.in_range 65 90 (nat_of_ascii c).

(** A character a token can consist of: a word character that is not an
    upper-case letter. *)
Definition is_token_char (c : ascii) : bool :=
  Tokens.is_word c && negb (is_upper c).

(** How often [w] occurs in [words]. *)
Definition occurrences (w : string) (words : list string) : nat :=
  List.length (List.filter (String.eqb w) words).

(** The value [(v || 0) + 1] that one more occurrence stores, and the value
    a property holds after [n] occurrences, starting from [undefined]. *)
Definition incremented (v : option JsValue) : option JsValue :=
  Some (plus_one (or_zero v)).

Definition value_after (n : nat) : option JsValue :=
  Nat.iter n incremented None.

(** The segments closed so far, and one more for a buffer that is not
    empty. *)
Definition pending (st : ChunkLoop) : nat :=
  (List.length (chunks_so_far st)
   + if JsString.truthy (currentChunk st) then 1 else 0)%nat.

End Shape.

(** * Properties *)

(** ** Zero vectors under binary64 *)

Section ZeroNorm.

Lemma mul_zero_or_nan_l x y :
  zero_or_nan x = true -> zero_or_nan (SFmul 53 1024 x y) = true.
Proof. destruct x, y; simpl; intros H; solve [reflexivity | discriminate H]. Qed.

Lemma mul_zero_or_nan_r x y :
  zero_or_nan y = true -> zero_or_nan (SFmul 53 1024 x y) = true.
Proof. destruct x, y; simpl; intros H; solve [reflexivity | discriminate H]. Qed.

Lemma add_zero_or_nan x y :
  zero_or_nan x = true -> zero_or_nan y = true ->
  zero_or_nan (SFadd 53 1024 x y) = true.
Proof.
  destruct x as [[]| | |], y as [[]| | |]; simpl; intros Hx Hy;
    solve [reflexivity | discriminate Hx | discriminate Hy].
Qed.

Lemma sqrt_zero_or_nan x :
  zero_or_nan x = true -> zero_or_nan (SFsqrt 53 1024 x) = true.
Proof. destruct x as [| [] | |]; simpl; intros H; solve [reflexivity | discriminate H]. Qed.

Lemma div_zero_or_nan x y :
  zero_or_nan x = true -> zero_or_nan y = true -> SFdiv 53 1024 x y = S754_nan.
Proof.
  destruct x, y; simpl; intros Hx Hy;
    solve [reflexivity | discriminate Hx | discriminate Hy].
Qed.

Lemma is_zero_zero_or_nan x : is_zero x = true -> zero_or_nan x = true.
Proof. unfold zero_or_nan. intros ->. reflexivity. Qed.

(** The dot product when every term has a zero factor on the left. *)
Lemma reduce_dot_zero_l (a b : list spec_float) i sum :
  Forall (fun x => is_zero x = true) a -> zero_or_nan sum = true ->
  zero_or_nan (reduce_dot a b i sum) = true.
Proof.
  intros Ha. revert i sum.
  induction Ha as [| x a Hx _ IH]; intros i sum Hsum; simpl.
  - exact Hsum.
  - apply IH. apply add_zero_or_nan; [exact Hsum |].
    apply mul_zero_or_nan_l, is_zero_zero_or_nan, Hx.
Qed.

(** An entry of a zero vector, read at any index, is a zero or (past the
    end) NaN. *)
Lemma at_index_zero (b : list spec_float) i :
  Forall (fun x => is_zero x = true) b -> zero_or_nan (at_index b i) = true.
Proof.
  intros Hb. unfold at_index.
  destruct (b !! i) as [x|] eqn:E; [| reflexivity].
  apply is_zero_zero_or_nan.
  rewrite Forall_forall in Hb. apply Hb.
  eapply list_elem_of_lookup_2. exact E.
Qed.

Lemma reduce_dot_zero_r (a b : list spec_float) i sum :
  Forall (fun x => is_zero x = true) b -> zero_or_nan sum = true ->
  zero_or_nan (reduce_dot a b i sum) = true.
Proof.
  intros Hb. revert i sum.
  induction a as [| x a IH]; intros i sum Hsum; simpl.
  - exact Hsum.
  - apply IH. apply add_zero_or_nan; [exact Hsum |].
    apply mul_zero_or_nan_r, at_index_zero, Hb.
Qed.

Lemma fold_squares_zero (a : list spec_float) sum :
  Forall (fun x => is_zero x = true) a -> zero_or_nan sum = true ->
  zero_or_nan
    (fold_left (fun sum val => num_add sum (num_mul val val)) a sum) = true.
Proof.
  intros Ha. revert sum.
  induction Ha as [| x a Hx _ IH]; intros sum Hsum; simpl.
  - exact Hsum.
  - apply IH. apply add_zero_or_nan; [exact Hsum |].
    apply mul_zero_or_nan_l, is_zero_zero_or_nan, Hx.
Qed.

Lemma magnitude_zero (a : list spec_float) :
  Forall (fun x => is_zero x = true) a ->
  zero_or_nan (num_sqrt (reduce_squares a)) = true.
Proof.
  intros Ha. apply sqrt_zero_or_nan, fold_squares_zero; [exact Ha | reflexivity].
Qed.

End ZeroNorm.

(** C1, as the code has it.  Whenever one of the two vectors is a zero
    vector (every entry [+0] or [-0], so its Euclidean norm is zero), the
    score [cosineSimilarity] computes is NaN, whatever the other vector is:
    the quotient is [0 / 0].  The score is therefore not 0, as the design
    document requires for a query without vocabulary terms. *)
Theorem cosineSimilarity_zero_norm_is_nan (a b : list spec_float) :
  Forall (fun x => is_zero x = true) a \/ Forall (fun x => is_zero x = true) b ->
  cosineSimilarity a b = S754_nan.
Proof.
  intros H. unfold cosineSimilarity.
  apply div_zero_or_nan.
  - destruct H as [Ha | Hb].
    + apply reduce_dot_zero_l; [exact Ha | reflexivity].
    + apply reduce_dot_zero_r; [exact Hb | reflexivity].
  - destruct H as [Ha | Hb].
    + apply mul_zero_or_nan_l, magnitude_zero, Ha.
    + apply mul_zero_or_nan_r, magnitude_zero, Hb.
Qed.

(** The same through the two handlers: a question without a term of the
    vocabulary scores NaN against the one segment of the stored document. *)
Example question_without_vocabulary_terms :
  Sample.ranking_for Sample.store_with_mammals "9" "Hello?"
  = [(0%nat, S754_nan)].
Proof. vm_compute. reflexivity. Qed.

(** The query [[0, 0]] against the candidate [[1, 0]]. *)
Lemma cosineSimilarity_zero_norm_is_nan_witness :
  Forall (fun x => is_zero x = true) [of_Z 0; of_Z 0]
  /\ cosineSimilarity [of_Z 0; of_Z 0] [of_Z 1; of_Z 0] = S754_nan.
Proof.
  assert (H : Forall (fun x => is_zero x = true) [of_Z 0; of_Z 0])
    by (repeat constructor).
  split; [exact H |].
  apply (cosineSimilarity_zero_norm_is_nan [of_Z 0; of_Z 0] [of_Z 1; of_Z 0]).
  left. exact H.
Defined.

(** ** The overlap of the chunker *)

Section Overlap.

Lemma append_cons c (s t : string) : String c s +:+ t = String c (s +:+ t).
Proof. reflexivity. Qed.

Lemma append_empty_r (s : string) : s +:+ EmptyString = s.
Proof.
  induction s as [| c s IH]; [reflexivity |].
  rewrite append_cons, IH. reflexivity.
Qed.

Lemma append_assoc (s t u : string) : (s +:+ t) +:+ u = s +:+ (t +:+ u).
Proof.
  induction s as [| c s IH]; [reflexivity |].
  rewrite !append_cons, IH. reflexivity.
Qed.

Lemma split_char_from_cons sep cur s :
  exists piece rest, JsString.split_char_from sep cur s = piece :: rest.
Proof.
  revert cur. induction s as [| c s IH]; intros cur; simpl.
  - now exists cur, [].
  - destruct (Ascii.eqb c sep).
    + now exists cur, (JsString.split_char_from sep EmptyString s).
    + apply IH.
Qed.

Lemma join_cons sep x y rest :
  JsString.join sep (x :: y :: rest) = x +:+ sep +:+ JsString.join sep (y :: rest).
Proof. reflexivity. Qed.

(** Splitting on a character and joining with it gives the string back. *)
Lemma join_split_char_from sep cur s :
  JsString.join (String sep EmptyString) (JsString.split_char_from sep cur s)
  = cur +:+ s.
Proof.
  revert cur. induction s as [| c s IH]; intros cur; simpl.
  - now rewrite append_empty_r.
  - destruct (Ascii.eqb c sep) eqn:E.
    + apply Ascii.eqb_eq in E. subst c.
      destruct (split_char_from_cons sep EmptyString s) as (p & r & Hpr).
      rewrite Hpr, join_cons, <- Hpr, IH. reflexivity.
    + rewrite IH, append_assoc. reflexivity.
Qed.

Lemma join_split_char sep s :
  JsString.join (String sep EmptyString) (JsString.split_char sep s) = s.
Proof. apply (join_split_char_from sep EmptyString s). Qed.

(** [slice(-0)] is [slice(0)]: the whole array. *)
Lemma slice_from_zero {A : Type} (l : list A) : JsArray.slice_from 0 l = l.
Proof.
  unfold JsArray.slice_from. simpl.
  replace (Z.to_nat (Z.min 0 (Z.of_nat (List.length l)))) with 0%nat by lia.
  reflexivity.
Qed.

(** [slice(-n)] for a positive [n] keeps the trailing [n] elements. *)
Lemma slice_from_negative {A : Type} (n : Z) (l : list A) :
  1 <= n -> JsArray.slice_from (- n) l = Reference.trailing (Z.to_nat n) l.
Proof.
  intros Hn. unfold JsArray.slice_from, Reference.trailing.
  destruct (Z.ltb_spec (- n) 0) as [_ | H]; [| lia].
  f_equal. lia.
Qed.

End Overlap.

(** C2, as the code has it.  When [floor(overlap / 5)] is 0 and a segment is
    closed, the next buffer is not seeded empty: [slice(-0)] keeps every
    word, so the next buffer is the whole closed buffer, a space and the
    paragraph that triggered the split. *)
Theorem zero_overlap_carries_whole_buffer
  (chunkSize overlap : Z) (st : ChunkLoop) (para : string) :
  overlap / 5 = 0 ->
  closes chunkSize (currentChunk st) para = true ->
  currentChunk (chunk_step chunkSize overlap st para)
  = currentChunk st +:+ " " +:+ para.
Proof.
  intros Hzero Hclose. unfold chunk_step. rewrite Hclose. simpl.
  unfold next_buffer, overlap_seed. rewrite Hzero. simpl (- 0).
  rewrite slice_from_zero.
  change " "%string with (String JsString.SP EmptyString).
  rewrite join_split_char. reflexivity.
Qed.

(** The buffer ["aaa bbb"] closed by the paragraph ["ccc"], with
    [chunkSize = 5] and [overlap = 0]. *)
Lemma zero_overlap_carries_whole_buffer_witness :
  let st := mkChunkLoop [] "aaa bbb" 0 in
  0 / 5 = 0
  /\ closes 5 (currentChunk st) "ccc" = true
  /\ currentChunk (chunk_step 5 0 st "ccc") = "aaa bbb ccc".
Proof.
  intros st.
  split; [reflexivity |]. split; [reflexivity |].
  apply (zero_overlap_carries_whole_buffer 5 0 st "ccc"); reflexivity.
Defined.

(** The same run seen from [chunkText]: the second segment repeats the
    whole first one. *)
Example chunkText_zero_overlap :
  chunkText
    ("aaa bbb" +:+ Sample.paragraph_break +:+ "ccc")
    5 0
  = [mkChunk 0 "aaa bbb"; mkChunk 1 "aaa bbb ccc"].
Proof. vm_compute. reflexivity. Qed.

(** C3, as amended.  When a segment is closed and [floor(overlap / 5)] is at
    least 1, the next buffer is the trailing [floor(overlap / 5)] pieces of
    the closed buffer (all of them when there are fewer), where the pieces
    are what the single character U+0020 separates, joined with single
    spaces, then one space and the paragraph that triggered the split. *)
Theorem next_buffer_keeps_trailing_pieces
  (chunkSize overlap : Z) (st : ChunkLoop) (para : string) :
  1 <= overlap / 5 ->
  closes chunkSize (currentChunk st) para = true ->
  currentChunk (chunk_step chunkSize overlap st para)
  = JsString.join " "
      (Reference.trailing (Z.to_nat (overlap / 5))
         (JsString.split_char " " (currentChunk st)))
    +:+ " " +:+ para.
Proof.
  intros Hn Hclose. unfold chunk_step. rewrite Hclose. simpl.
  unfold next_buffer, overlap_seed.
  rewrite slice_from_negative by exact Hn. reflexivity.
Qed.

Lemma next_buffer_keeps_trailing_pieces_witness :
  let st := mkChunkLoop [] "one two three" 0 in
  1 <= 10 / 5
  /\ closes 8 (currentChunk st) "four" = true
  /\ currentChunk (chunk_step 8 10 st "four") = "two three four".
Proof.
  intros st.
  split; [vm_compute; discriminate |]. split; [reflexivity |].
  apply (next_buffer_keeps_trailing_pieces 8 10 st "four");
    [vm_compute; discriminate | reflexivity].
Defined.

(** C3, as stated, fails.  With [chunkSize = 8] and [overlap = 10] the
    paragraphs ["a b"], ["c d"], ["eeee"] are processed in this order;
    the third one closes the buffer holding the first two.  The trailing two
    whitespace-delimited words of that buffer are ["c"] and ["d"], but the
    code splits on spaces only and carries the line feeds along. *)
Lemma next_buffer_not_whitespace_words :
  let st := fold_left (chunk_step 8 10) ["a b"; "c d"] chunk_init in
  closes 8 (currentChunk st) "eeee" = true
  /\ Reference.described_seed 10 (currentChunk st) = "c d"
  /\ currentChunk (chunk_step 8 10 st "eeee")
     <> Reference.described_seed 10 (currentChunk st) +:+ "eeee"
  /\ currentChunk (chunk_step 8 10 st "eeee")
     <> Reference.described_seed 10 (currentChunk st) +:+ " " +:+ "eeee".
Proof.
  vm_compute. repeat split; discriminate.
Qed.

(** ** Ranking *)

Section Ranking.

Lemma insert_permutation {A : Type} (comparefn : A -> A -> spec_float) x l :
  Permutation (ArraySort.insert comparefn x l) (x :: l).
Proof.
  induction l as [| y l IH]; simpl; [reflexivity |].
  destruct (ArraySort.positive (comparefn x y)); [| reflexivity].
  rewrite IH. apply perm_swap.
Qed.

(** The sort only reorders. *)
Lemma sort_permutation {A : Type} (comparefn : A -> A -> spec_float) l :
  Permutation (ArraySort.sort comparefn l) l.
Proof.
  induction l as [| x l IH]; simpl; [reflexivity |].
  unfold ArraySort.sort in IH. rewrite insert_permutation, IH. reflexivity.
Qed.

(** *** The sort under a consistent comparison function

    When what the comparison function asks for is a strict weak order (it
    never puts two elements after each other, and being not-after is
    transitive), the model of the sort returns the elements in that order
    and keeps tied elements in their original order. *)

Section ConsistentComparator.

Context {A : Type} (comparefn : A -> A -> spec_float).

Hypothesis after_asym : forall x y,
  ArraySort.goes_after comparefn x y = true ->
  ArraySort.goes_after comparefn y x = false.

Hypothesis not_after_trans : forall x y z,
  ArraySort.goes_after comparefn x y = false ->
  ArraySort.goes_after comparefn y z = false ->
  ArraySort.goes_after comparefn x z = false.

Lemma insert_in_order x l :
  StronglySorted (ArraySort.in_order comparefn) l ->
  StronglySorted (ArraySort.in_order comparefn) (ArraySort.insert comparefn x l).
Proof.
  induction 1 as [| y l Hsorted IH Hy]; simpl.
  - repeat constructor.
  - fold (ArraySort.goes_after comparefn x y).
    destruct (ArraySort.goes_after comparefn x y) eqn:Hxy.
    + constructor; [exact IH |].
      rewrite insert_permutation. constructor; [| exact Hy].
      apply after_asym, Hxy.
    + constructor; [constructor; assumption |].
      constructor; [exact Hxy |].
      eapply Forall_impl; [exact Hy |].
      intros z Hyz. exact (not_after_trans x y z Hxy Hyz).
Qed.

(** The result is in the order the comparison function asks for. *)
Lemma sort_in_order l :
  StronglySorted (ArraySort.in_order comparefn) (ArraySort.sort comparefn l).
Proof.
  induction l as [| x l IH]; simpl; [constructor |].
  apply insert_in_order, IH.
Qed.

Lemma insert_keeps_ties z x l :
  List.filter (ArraySort.tied comparefn z) (ArraySort.insert comparefn x l)
  = List.filter (ArraySort.tied comparefn z) (x :: l).
Proof.
  induction l as [| y l IH]; [reflexivity |].
  simpl ArraySort.insert. fold (ArraySort.goes_after comparefn x y).
  destruct (ArraySort.goes_after comparefn x y) eqn:Hxy; [| reflexivity].
  change (List.filter (ArraySort.tied comparefn z)
            (y :: ArraySort.insert comparefn x l))
    with (if ArraySort.tied comparefn z y
          then y :: List.filter (ArraySort.tied comparefn z)
                      (ArraySort.insert comparefn x l)
          else List.filter (ArraySort.tied comparefn z)
                 (ArraySort.insert comparefn x l)).
  rewrite IH. simpl.
  destruct (ArraySort.tied comparefn z x) eqn:Hzx;
    destruct (ArraySort.tied comparefn z y) eqn:Hzy; try reflexivity.
  unfold ArraySort.tied in Hzx, Hzy.
  apply andb_prop in Hzx as [_ Hxz], Hzy as [Hzy _].
  apply negb_true_iff in Hxz, Hzy.
  rewrite (not_after_trans x z y Hxz Hzy) in Hxy. discriminate.
Qed.

(** The sort is stable: the elements tied with any given one come out in
    the order they went in. *)
Lemma sort_keeps_ties z l :
  List.filter (ArraySort.tied comparefn z) (ArraySort.sort comparefn l)
  = List.filter (ArraySort.tied comparefn z) l.
Proof.
  induction l as [| x l IH]; [reflexivity |].
  change (ArraySort.sort comparefn (x :: l))
    with (ArraySort.insert comparefn x (ArraySort.sort comparefn l)).
  rewrite insert_keeps_ties.
  change (List.filter (ArraySort.tied comparefn z)
            (x :: ArraySort.sort comparefn l))
    with (if ArraySort.tied comparefn z x
          then x :: List.filter (ArraySort.tied comparefn z)
                      (ArraySort.sort comparefn l)
          else List.filter (ArraySort.tied comparefn z)
                 (ArraySort.sort comparefn l)).
  rewrite IH. reflexivity.
Qed.

End ConsistentComparator.

(** A comparison function of the shape of [comparator] on two-valued keys
    is consistent, and the sort orders by it. *)
Example sort_consistent_sample :
  let comparefn (a b : bool) :=
    SFsub 53 1024 (of_Z (Z.b2z b)) (of_Z (Z.b2z a)) in
  StronglySorted (ArraySort.in_order comparefn)
    (ArraySort.sort comparefn [false; true; false; true])
  /\ ArraySort.sort comparefn [false; true; false; true]
     = [true; true; false; false].
Proof.
  intros comparefn. split; [| reflexivity].
  apply sort_in_order.
  - intros [] []; vm_compute; congruence.
  - intros [] [] []; vm_compute; congruence.
Qed.

(** The example of the design document: [a = [2, 0]] and [b = [1, 0]]
    both score 1 against the query [[1, 0]], and the tie keeps them in
    their order. *)
Example rank_tie_keeps_order :
  let ranked :=
    rank (Sample.counts [1; 0])
         [Sample.segment 0 [2; 0]; Sample.segment 1 [1; 0]] 3 in
  map (fun c => chunk_id (scored c)) ranked = [0%nat; 1%nat]
  /\ map similarity ranked = [of_Z 1; of_Z 1].
Proof. vm_compute. split; reflexivity. Qed.

(** Distinct scores, none of them NaN, come out in descending order. *)
Example rank_orders_by_score :
  map (fun c => chunk_id (scored c))
      (rank (Sample.counts [1; 0])
            [Sample.segment 0 [1; 1]; Sample.segment 1 [1; 2];
             Sample.segment 2 [0; 1]; Sample.segment 3 [1; 0]] 3)
  = [3%nat; 0%nat; 1%nat].
Proof. vm_compute. reflexivity. Qed.

End Ranking.

(** C4, as the code has it.  A candidate whose vector is zero scores NaN
    (see C1), every comparison with it returns NaN, which the sort takes for
    a tie, and so the candidates around it are never put in order.  Against
    the query [[1, 0]] the candidates [[1, 1]], [[0, 0]], [[0, 0]], [[1, 0]]
    are returned in their original order and cut to three: the last one,
    which alone scores 1, is lost although the first one scores less. *)
Theorem rank_not_sorted_with_nan_score :
  let query := Sample.counts [1; 0] in
  let candidates :=
    [Sample.segment 0 [1; 1]; Sample.segment 1 [0; 0];
     Sample.segment 2 [0; 0]; Sample.segment 3 [1; 0]] in
  map (fun c => chunk_id (scored c)) (rank query candidates 3)
  = [0%nat; 1%nat; 2%nat]
  /\ map (fun c => is_nan (similarity c)) (rank query candidates 3)
     = [false; true; true]
  /\ SFltb (similarity (score_chunk query (Sample.segment 0 [1; 1])))
           (similarity (score_chunk query (Sample.segment 3 [1; 0]))) = true.
Proof. vm_compute. repeat split; reflexivity. Qed.

(** The same through the two handlers.  The uploaded document has four
    segments; the second and the third contain no word, so their vectors
    are zero.  For the question ["cats?"] the scores are [0.707], NaN, NaN
    and [1]; the handler keeps the first three segments. *)
Example ask_loses_best_segment :
  Sample.ranking_for Sample.store_with_long_document "11" "cats?"
  = [(0%nat, S754_finite false 6369051672525772 (-53));
     (1%nat, S754_nan); (2%nat, S754_nan)].
Proof. vm_compute. reflexivity. Qed.

(** ** Self-similarity *)

Section SelfSimilarity.

(** Against itself, a vector has the sum of its squares for dot product. *)
Lemma reduce_dot_self (a : list spec_float) :
  forall pre sum,
    reduce_dot a (pre ++ a) (List.length pre) sum
    = fold_left (fun sum val => num_add sum (num_mul val val)) a sum.
Proof.
  induction a as [| x a IH]; intros pre sum; [reflexivity |].
  simpl. unfold at_index. rewrite list_lookup_middle by reflexivity.
  replace (pre ++ x :: a) with ((pre ++ [x]) ++ a)
    by (rewrite <- app_assoc; reflexivity).
  replace (S (List.length pre)) with (List.length (pre ++ [x]))
    by (rewrite length_app; simpl; lia).
  apply IH.
Qed.

Lemma div_eucl_self_scaled m :
  Z.div_eucl (Z.shiftl (Zpos m) 53) (Zpos m) = (2 ^ 53, 0).
Proof.
  rewrite Z.shiftl_mul_pow2 by lia.
  pose proof (Z.div_eucl_eq (Z.pos m * 2 ^ 53) (Z.pos m) ltac:(lia)) as Heq.
  pose proof (Z.mod_pos_bound (Z.pos m * 2 ^ 53) (Z.pos m) ltac:(lia)) as Hb.
  unfold Z.modulo in Hb.
  destruct (Z.div_eucl (Z.pos m * 2 ^ 53) (Z.pos m)) as [q r].
  assert (r = 0 /\ q = 2 ^ 53) as [-> ->]; [| reflexivity].
  assert (Hr : Z.pos m * (2 ^ 53 - q) = r) by lia.
  assert (2 ^ 53 - q = 0) by nia. split; nia.
Qed.

(** In binary64 a finite number divided by itself is exactly 1. *)
Lemma div_self s m e :
  SFdiv 53 1024 (S754_finite s m e) (S754_finite s m e) = of_Z 1.
Proof.
  unfold SFdiv, SFdiv_core_binary.
  replace (Z.sub (Z.add (Zdigits2 (Zpos m)) e) (Z.add (Zdigits2 (Zpos m)) e))
    with 0 by lia.
  replace (Z.sub e e) with 0 by lia.
  change (Z.min (fexp 53 1024 0) 0) with (-53).
  change (Z.sub 0 (-53)) with 53.
  cbv iota beta.
  rewrite div_eucl_self_scaled, xorb_nilpotent.
  assert (Hloc : new_location (Zpos m) 0 = loc_Exact).
  { unfold new_location, new_location_even, new_location_odd.
    destruct (Z.even (Z.pos m)); reflexivity. }
  rewrite Hloc. vm_compute. reflexivity.
Qed.

End SelfSimilarity.



(** Two more vectors with a norm that is not zero: [[1, 1, 1]] scores
    above 1 against itself, and a single entry [2^600] scores NaN, its
    square being too large for binary64. *)
Example self_similarity_above_one_and_overflow :
  SFltb (of_Z 1) (cosineSimilarity [of_Z 1; of_Z 1; of_Z 1]
                                   [of_Z 1; of_Z 1; of_Z 1]) = true
  /\ cosineSimilarity [of_Z (2 ^ 600)] [of_Z (2 ^ 600)] = S754_nan.
Proof. vm_compute. split; reflexivity. Qed.


(** ** The invariant of the stored records *)

Section RecordInvariant.

Lemma fill_vector_length wordCounts idx vocabulary vector :
  List.length (fill_vector wordCounts idx vocabulary vector) = List.length vector.
Proof.
  revert idx vector.
  induction vocabulary as [| word rest IH]; intros idx vector; simpl.
  - reflexivity.
  - rewrite IH. apply length_insert.
Qed.

(** A vector has one entry per term of the vocabulary it was built for. *)
Lemma simpleEmbedding_length text vocabulary :
  List.length (fst (simpleEmbedding text (Some vocabulary)))
  = List.length vocabulary.
Proof.
  unfold simpleEmbedding. simpl.
  rewrite fill_vector_length. apply length_replicate.
Qed.

Lemma slice_to_length {A : Type} (stop : Z) (l : list A) :
  0 <= stop -> (List.length (JsArray.slice_to stop l) <= Z.to_nat stop)%nat.
Proof.
  intros Hstop. unfold JsArray.slice_to.
  destruct (Z.ltb_spec stop 0) as [H | _]; [lia |].
  rewrite length_firstn. lia.
Qed.

Lemma buildVocabulary_length chunks :
  (List.length (buildVocabulary chunks 500) <= 500)%nat.
Proof.
  unfold buildVocabulary.
  pose proof (slice_to_length 500
                (Tokens.set_of (flat_map (fun chunk => Tokens.tokens (text chunk)) chunks)))
    as H.
  lia.
Qed.

Lemma make_record_ok text numpages :
  Reference.record_ok (make_record text numpages).
Proof.
  unfold Reference.record_ok, make_record. simpl. split.
  - apply Forall_forall. intros c Hc.
    apply list_elem_of_In, in_map_iff in Hc. destruct Hc as (chunk & <- & _).
    apply simpleEmbedding_length.
  - apply buildVocabulary_length.
Qed.

End RecordInvariant.

(** C5.  In every store the server can reach, every record satisfies the
    invariant: each stored segment's vector is as long as the record's
    vocabulary, and the vocabulary has at most 500 terms. *)
Theorem stored_records_ok (documentStore : gmap string DocRecord) :
  reachable documentStore ->
  forall docId doc, documentStore !! docId = Some doc -> Reference.record_ok doc.
Proof.
  induction 1 as [| now file documentStore Hreach IH]; intros docId doc Hdoc.
  - rewrite lookup_empty in Hdoc. discriminate.
  - destruct file as [[message | text numpages] |]; cbn [upload fst] in Hdoc.
    + eapply IH, Hdoc.
    + destruct (decide (toString now = docId)) as [Heq | Hne].
      * subst docId. rewrite lookup_insert_eq in Hdoc. injection Hdoc as <-.
        apply make_record_ok.
      * rewrite lookup_insert_ne in Hdoc by exact Hne. eapply IH, Hdoc.
    + eapply IH, Hdoc.
Qed.

Lemma stored_records_ok_witness :
  reachable Sample.store_with_mammals
  /\ exists doc,
       Sample.store_with_mammals !! "9" = Some doc
       /\ List.length (chunks doc) = 1%nat
       /\ List.length (vocabulary doc) = 5%nat
       /\ Reference.record_ok doc.
Proof.
  assert (Hreach : reachable Sample.store_with_mammals)
    by (apply reachable_upload, reachable_start).
  split; [exact Hreach |].
  eexists. split; [vm_compute; reflexivity |].
  split; [reflexivity |]. split; [reflexivity |].
  apply (stored_records_ok Sample.store_with_mammals Hreach "9").
  vm_compute. reflexivity.
Defined.

(** ** The vocabulary *)

Section Vocabulary.

(** Once a word character is taken, the greedy quantifier takes the whole
    run: the assertion holds right behind it. *)
Lemma word_rest_is_prefix s prev :
  Tokens.is_word prev = true ->
  Tokens.word_rest prev s = Some (Reference.word_prefix s).
Proof.
  revert prev. induction s as [| c s IH]; intros prev Hprev; simpl.
  - unfold Tokens.boundary. simpl. rewrite Hprev. reflexivity.
  - destruct (Tokens.is_word c) eqn:Hc.
    + rewrite (IH c Hc). reflexivity.
    + unfold Tokens.boundary. simpl. rewrite Hprev, Hc. reflexivity.
Qed.

Lemma singleton_if_any_cons c s :
  Reference.singleton_if_any (String c s) = [String c s].
Proof. reflexivity. Qed.

(** The runs of a string: the run in progress, completed by the word
    prefix, then the runs of what follows. *)
Lemma runs_from_prefix s cur :
  Reference.runs_from Tokens.is_word cur s
  = Reference.singleton_if_any (cur +:+ Reference.word_prefix s)
    ++ Reference.runs_from Tokens.is_word EmptyString (Reference.after_word_prefix s).
Proof.
  revert cur. induction s as [| c s IH]; intros cur; simpl.
  - rewrite append_empty_r, app_nil_r. reflexivity.
  - destruct (Tokens.is_word c) eqn:Hc.
    + rewrite IH, append_assoc. reflexivity.
    + rewrite append_empty_r. simpl. rewrite Hc. reflexivity.
Qed.

Lemma match_words_from_skip prev k c s :
  Tokens.match_words_from prev (S k) (String c s)
  = Tokens.match_words_from (Some c) k s.
Proof. reflexivity. Qed.

Lemma match_words_from_here prev c s :
  Tokens.match_words_from prev 0 (String c s)
  = match Tokens.word_here prev (String c s) with
    | Some m => m :: Tokens.match_words_from (Some c) (String.length m - 1) s
    | None => Tokens.match_words_from (Some c) 0 s
    end.
Proof. reflexivity. Qed.

(** The search and the runs agree, both at a position that no word
    character precedes and at the positions inside a match. *)
Lemma match_words_from_runs s :
  (forall prev, Tokens.is_word_at prev = false ->
     Tokens.match_words_from prev 0 s = Reference.runs_from Tokens.is_word EmptyString s)
  /\ (forall prev,
        Tokens.match_words_from prev
          (String.length (Reference.word_prefix s)) s
        = Reference.runs_from Tokens.is_word EmptyString (Reference.after_word_prefix s)).
Proof.
  induction s as [| c s [IHstart IHskip]].
  - split; intros prev; reflexivity.
  - assert (Hnot : Tokens.is_word c = false ->
              forall prev, Tokens.match_words_from prev 0 (String c s)
                           = Reference.runs_from Tokens.is_word EmptyString s).
    { intros Hc prev. rewrite match_words_from_here.
      unfold Tokens.word_here. rewrite Hc, andb_false_r.
      apply IHstart. simpl. exact Hc. }
    split.
    + intros prev Hprev. destruct (Tokens.is_word c) eqn:Hc.
      * rewrite match_words_from_here. unfold Tokens.word_here.
        unfold Tokens.boundary. rewrite Hprev. simpl Tokens.is_word_at.
        rewrite Hc. simpl xorb. simpl andb.
        rewrite (word_rest_is_prefix s c Hc). simpl option_map.
        cbv beta iota. simpl String.length.
        rewrite Nat.sub_succ, Nat.sub_0_r, IHskip.
        simpl Reference.runs_from. rewrite Hc.
        rewrite (runs_from_prefix s (EmptyString +:+ String c EmptyString)).
        reflexivity.
      * rewrite (Hnot eq_refl). simpl. rewrite Hc. reflexivity.
    + intros prev.
      simpl Reference.word_prefix. simpl Reference.after_word_prefix.
      destruct (Tokens.is_word c) eqn:Hc.
      * simpl String.length. rewrite match_words_from_skip. apply IHskip.
      * simpl String.length. rewrite (Hnot eq_refl). simpl. rewrite Hc. reflexivity.
Qed.

(** The pattern [\b\w+\b], searched globally, finds the maximal runs of
    the characters [\w] matches. *)
Lemma match_words_runs s :
  Tokens.match_words s = Reference.runs_from Tokens.is_word EmptyString s.
Proof. apply (proj1 (match_words_from_runs s) None). reflexivity. Qed.

Lemma filter_absorb (P Q : string -> bool) l :
  (forall y, P y = true -> Q y = true) ->
  List.filter P (List.filter Q l) = List.filter P l.
Proof.
  intros HPQ. induction l as [| y l IH]; simpl; [reflexivity |].
  destruct (Q y) eqn:HQ; simpl.
  - rewrite IH. reflexivity.
  - destruct (P y) eqn:HP; [| exact IH].
    apply HPQ in HP. congruence.
Qed.

Lemma filter_both (P Q : string -> bool) l :
  List.filter (fun y => P y && Q y) l = List.filter P (List.filter Q l).
Proof.
  induction l as [| y l IH]; simpl; [reflexivity |].
  destruct (Q y); simpl.
  - rewrite andb_true_r. destruct (P y); rewrite IH; reflexivity.
  - rewrite andb_false_r. exact IH.
Qed.

Lemma filter_same (P Q : string -> bool) l :
  (forall y, P y = Q y) -> List.filter P l = List.filter Q l.
Proof.
  intros H. induction l as [| y l IH]; simpl; [reflexivity |].
  rewrite H, IH. reflexivity.
Qed.

(** The insertion order of a [Set]: what is already in it, then the first
    occurrences of what is not. *)
Lemma set_of_from words seen :
  fold_left Tokens.set_add words seen
  = seen ++ List.filter (fun y => negb (existsb (String.eqb y) seen))
                        (Reference.dedup_first words).
Proof.
  revert seen. induction words as [| x words IH]; intros seen; simpl.
  - rewrite app_nil_r. reflexivity.
  - unfold Tokens.set_add at 2.
    destruct (existsb (String.eqb x) seen) eqn:Hx; simpl.
    + rewrite IH. f_equal. symmetry. apply filter_absorb.
      intros y Hy. destruct (String.eqb_spec y x) as [-> | _]; [| reflexivity].
      rewrite Hx in Hy. discriminate.
    + rewrite IH, <- app_assoc. simpl. do 2 f_equal.
      rewrite <- filter_both. apply filter_same.
      intros y. rewrite existsb_app. simpl.
      rewrite orb_false_r, negb_orb. reflexivity.
Qed.

Lemma set_of_dedup words : Tokens.set_of words = Reference.dedup_first words.
Proof.
  unfold Tokens.set_of. rewrite set_of_from. simpl.
  induction (Reference.dedup_first words) as [| y l IH]; simpl;
    [reflexivity | now rewrite IH].
Qed.

(** [slice(0, n)] for a count [n] keeps the first [n] elements. *)
Lemma slice_to_firstn {A : Type} (n : nat) (l : list A) :
  JsArray.slice_to (Z.of_nat n) l = firstn n l.
Proof.
  unfold JsArray.slice_to.
  destruct (Z.ltb_spec (Z.of_nat n) 0) as [H | _]; [lia |].
  destruct (Nat.le_gt_cases n (List.length l)) as [Hle | Hgt].
  - f_equal. lia.
  - replace (Z.to_nat (Z.min (Z.of_nat n) (Z.of_nat (List.length l))))
      with (List.length l) by lia.
    rewrite firstn_all, firstn_all2 by lia. reflexivity.
Qed.

(** [\w] matches the word characters of the document, no more and no
    less. *)
Lemma is_word_word_character c : Tokens.is_word c = Reference.word_character c.
Proof. destruct c as [[] [] [] [] [] [] [] []]; vm_compute; reflexivity. Qed.

(** [toLowerCase] is the lower-casing of the document, character by
    character. *)
Lemma lower_char_lower_case_char c :
  Tokens.lower_char c = Reference.lower_case_char c.
Proof. destruct c as [[] [] [] [] [] [] [] []]; vm_compute; reflexivity. Qed.

Lemma toLowerCase_lower_case s : Tokens.toLowerCase s = Reference.lower_case s.
Proof.
  induction s as [| c s IH]; [reflexivity |].
  simpl. rewrite lower_char_lower_case_char, IH. reflexivity.
Qed.

Lemma runs_from_same_class (P Q : ascii -> bool) s :
  (forall c, P c = Q c) ->
  forall cur, Reference.runs_from P cur s = Reference.runs_from Q cur s.
Proof.
  intros HPQ. induction s as [| c s IH]; intros cur; [reflexivity |].
  simpl. rewrite HPQ, !IH. reflexivity.
Qed.

(** The tokens of a text are the word runs of its lower-casing. *)
Lemma tokens_word_runs document :
  Tokens.tokens document = Reference.word_runs (Reference.lower_case document).
Proof.
  unfold Tokens.tokens, Reference.word_runs.
  rewrite match_words_runs, toLowerCase_lower_case.
  apply runs_from_same_class, is_word_word_character.
Qed.

End Vocabulary.

(** C6.  For every sequence of segments and every number [maxTerms] of
    terms, [buildVocabulary] returns the vocabulary the design document
    describes: the maximal runs of word characters of the lower-cased texts,
    concatenated in segment order, deduplicated keeping first occurrences,
    cut to the first [maxTerms]. *)
Theorem buildVocabulary_described (chunks : list Chunk) (maxTerms : nat) :
  buildVocabulary chunks (Z.of_nat maxTerms)
  = Reference.described_vocabulary (map text chunks) maxTerms.
Proof.
  unfold buildVocabulary, Reference.described_vocabulary.
  rewrite slice_to_firstn, set_of_dedup. do 2 f_equal.
  induction chunks as [| chunk chunks IH]; simpl; [reflexivity |].
  rewrite IH, tokens_word_runs. reflexivity.
Qed.

(** The description on two sample texts: capitals are folded, the
    underscore and the digits belong to words, everything else separates
    them. *)
Example described_vocabulary_sample :
  Reference.described_vocabulary
    ["Cats are_mammals."; "CATS, dogs & 2 Birds"] 4
  = ["cats"; "are_mammals"; "dogs"; "2"].
Proof. vm_compute. reflexivity. Qed.

(** The literal of the upload handler on a sample text. *)
Example buildVocabulary_sample :
  buildVocabulary [mkChunk 0 "Cats are mammals."; mkChunk 1 "Dogs are MAMMALS too."] 3
  = ["cats"; "are"; "mammals"].
Proof. vm_compute. reflexivity. Qed.

(** ** The handlers *)

Section Handlers.

(** The decimal rendering of an integer is never empty. *)
Lemma toString_truthy n : JsString.truthy (toString n) = true.
Proof.
  unfold toString, DecimalString.NilZero.string_of_int.
  destruct (Z.to_int n) as [d | d]; [| reflexivity].
  destruct d; reflexivity.
Qed.

(** Different integers have different decimal renderings. *)
Lemma toString_inj n m : toString n = toString m -> n = m.
Proof.
  assert (Hparse : forall k,
            DecimalString.NilZero.int_of_string (toString k) = Some (Z.to_int k)).
  { intros k. apply DecimalString.NilZero.isi; destruct k; simpl; try discriminate;
      intros [= H]; exact (DecimalPos.Unsigned.to_uint_nonnil _ H). }
  intros H. apply DecimalZ.to_int_inj.
  pose proof (Hparse n) as Hn. rewrite H, Hparse in Hn. congruence.
Qed.

Lemma missing_some s : missing (Some s) = negb (JsString.truthy s).
Proof. reflexivity. Qed.

(** A run that finds the record never answers with [DocumentNotFound]. *)
Lemma ask_found_not_document_not_found body documentStore id doc outcome :
  docId body = Some id -> documentStore !! id = Some doc ->
  response_of (ask body documentStore) outcome <> DocumentNotFound.
Proof.
  intros Hid Hdoc. unfold ask. rewrite Hid.
  destruct (missing (question body) || missing (Some id)); [discriminate |].
  destruct (question body) as [q |]; [| discriminate].
  rewrite Hdoc. simpl. destruct (outcome _); discriminate.
Qed.

End Handlers.

(** What the upload of a text without segments does on every store: it
    succeeds and stores, under the decimal rendering of the clock reading, a
    record with no segments and an empty vocabulary; the identifier differs
    from the one of any upload at another clock reading, and the records
    under other identifiers are left as they were; and no later request to
    [/ask] with that identifier is answered with [DocumentNotFound]. *)
Theorem upload_registers_empty_document
  (now numpages : Z) (text : string) (documentStore : gmap string DocRecord) :
  chunkText text 800 150 = [] ->
  let after := upload now (Some (ParsedPdf text numpages)) documentStore in
  (exists message, snd after = UploadOk (toString now) numpages 0 message)
  /\ fst after !! toString now = Some (mkDocRecord [] [] numpages 0)
  /\ (forall earlier, earlier <> now -> toString earlier <> toString now)
  /\ (forall id, id <> toString now -> fst after !! id = documentStore !! id)
  /\ (forall question outcome,
        response_of (ask (mkAskBody question (Some (toString now))) (fst after))
                    outcome
        <> DocumentNotFound).
Proof.
  intros Hempty after.
  assert (Hrecord : make_record text numpages = mkDocRecord [] [] numpages 0)
    by (unfold make_record; rewrite Hempty; reflexivity).
  assert (Hstored : fst after !! toString now = Some (mkDocRecord [] [] numpages 0))
    by (unfold after; cbn [upload fst]; rewrite Hrecord; apply lookup_insert_eq).
  split; [| split; [exact Hstored | split; [| split]]].
  - unfold after. cbn [upload snd]. rewrite Hrecord. eexists. reflexivity.
  - intros earlier Hne Heq. apply Hne, toString_inj, Heq.
  - intros id Hne. unfold after. cbn [upload fst].
    apply lookup_insert_ne. congruence.
  - intros question outcome.
    eapply ask_found_not_document_not_found; [reflexivity | exact Hstored].
Qed.

Lemma upload_registers_empty_document_witness :
  chunkText EmptyString 800 150 = []
  /\ Sample.store_with_empty_document !! "7" = Some (mkDocRecord [] [] 0 0)
  /\ response_of
       (ask (mkAskBody (Some "What are mammals?") (Some "7"))
            Sample.store_with_empty_document)
       (fun _ => Replied "I do not know.")
     <> DocumentNotFound.
Proof.
  assert (H : chunkText EmptyString 800 150 = []) by reflexivity.
  pose proof (upload_registers_empty_document 7 0 EmptyString ∅ H)
    as (_ & Hstored & _ & _ & Hask).
  split; [exact H |]. split; [exact Hstored |]. apply Hask.
Defined.

(** C7, as the code has it.  The identifier of an upload is the clock
    reading, so it is not fresh when an earlier upload read the same clock:
    for every text that chunks to no segment and every store that already
    holds a record under the decimal rendering of the clock reading, the
    upload answers with that identifier and puts the record without
    segments in the place of the earlier record. *)
Theorem upload_identifier_not_fresh
  (now numpages : Z) (document : string)
  (documentStore : gmap string DocRecord) (earlier : DocRecord) :
  chunkText document 800 150 = [] ->
  documentStore !! toString now = Some earlier ->
  let after := upload now (Some (ParsedPdf document numpages)) documentStore in
  (exists message, snd after = UploadOk (toString now) numpages 0 message)
  /\ fst after !! toString now = Some (mkDocRecord [] [] numpages 0)
  /\ dom (fst after) = dom documentStore.
Proof.
  intros Hempty Hearlier after.
  assert (Hrecord : make_record document numpages = mkDocRecord [] [] numpages 0)
    by (unfold make_record; rewrite Hempty; reflexivity).
  unfold after. cbn [upload fst snd]. rewrite Hrecord.
  split; [eexists; reflexivity |]. split; [apply lookup_insert_eq |].
  rewrite dom_insert_L. apply subseteq_union_1_L, singleton_subseteq_l.
  apply elem_of_dom. eexists. exact Hearlier.
Qed.

(** An upload of a document with one segment at clock reading 9, then an
    upload of an empty document at the same clock reading: the store is
    reachable, the second upload is answered with the identifier of the
    first, and the record of the first is gone. *)
Lemma upload_identifier_not_fresh_witness :
  reachable Sample.store_with_mammals
  /\ chunkText EmptyString 800 150 = []
  /\ (exists earlier,
        Sample.store_with_mammals !! "9" = Some earlier
        /\ List.length (chunks earlier) = 1%nat)
  /\ (exists message,
        snd (upload 9 (Some (ParsedPdf EmptyString 0)) Sample.store_with_mammals)
        = UploadOk "9" 0 0 message)
  /\ fst (upload 9 (Some (ParsedPdf EmptyString 0)) Sample.store_with_mammals)
     !! "9" = Some (mkDocRecord [] [] 0 0).
Proof.
  assert (Hreach : reachable Sample.store_with_mammals)
    by (apply reachable_upload, reachable_start).
  assert (Hempty : chunkText EmptyString 800 150 = []) by reflexivity.
  assert (Hearlier : Sample.store_with_mammals !! "9"
                     = Some (make_record
                               ("Cats are mammals." +:+ Sample.paragraph_break
                                +:+ "Dogs are mammals too.") 1))
    by apply lookup_insert_eq.
  destruct (upload_identifier_not_fresh 9 0 EmptyString
              Sample.store_with_mammals _ Hempty Hearlier)
    as (Hanswer & Hstored & _).
  split; [exact Hreach |]. split; [exact Hempty |].
  split; [eexists; split; [exact Hearlier | vm_compute; reflexivity] |].
  split; [exact Hanswer | exact Hstored].
Defined.

(** C8, as amended.  For every request whose document identifier is not a
    key of the store, the completion capability is never called; the
    response is [DocumentNotFound] when the question and the identifier are
    both present and non-empty, and [MissingInput] otherwise. *)
Theorem ask_unknown_document (body : AskBody) (documentStore : gmap string DocRecord) :
  (forall id, docId body = Some id -> documentStore !! id = None) ->
  calls_completion (ask body documentStore) = false
  /\ (missing (question body) = false -> missing (docId body) = false ->
      ask body documentStore = Respond DocumentNotFound)
  /\ (missing (question body) || missing (docId body) = true ->
      ask body documentStore = Respond MissingInput).
Proof.
  intros Hunknown. unfold ask.
  destruct (missing (question body) || missing (docId body)) eqn:Hmissing.
  - split; [reflexivity |]. split; [| reflexivity].
    intros Hq Hd. rewrite Hq, Hd in Hmissing. discriminate.
  - destruct (question body) as [q |]; [| discriminate].
    destruct (docId body) as [id |] eqn:Hid;
      [| rewrite orb_true_r in Hmissing; discriminate].
    rewrite (Hunknown id eq_refl).
    split; [reflexivity |]. split; [reflexivity | discriminate].
Qed.

Lemma ask_unknown_document_witness :
  (forall id, docId (mkAskBody (Some "What are mammals?") (Some "42")) = Some id ->
              (∅ : gmap string DocRecord) !! id = None)
  /\ calls_completion (ask (mkAskBody (Some "What are mammals?") (Some "42")) ∅)
     = false
  /\ ask (mkAskBody (Some "What are mammals?") (Some "42")) ∅
     = Respond DocumentNotFound.
Proof.
  assert (H : forall id,
             docId (mkAskBody (Some "What are mammals?") (Some "42")) = Some id ->
             (∅ : gmap string DocRecord) !! id = None)
    by (intros id _; apply lookup_empty).
  pose proof (ask_unknown_document
                (mkAskBody (Some "What are mammals?") (Some "42")) ∅ H)
    as (Hcalls & Hnotfound & _).
  split; [exact H |]. split; [exact Hcalls |].
  apply Hnotfound; reflexivity.
Defined.

(** C8, as stated, fails.  The identifier ["42"] is not a key of the empty
    store, yet a request that carries it without a question is answered
    with [MissingInput]: the check of the inputs comes before the lookup. *)
Lemma missing_question_precedes_lookup :
  (∅ : gmap string DocRecord) !! "42" = None
  /\ ask (mkAskBody None (Some "42")) ∅ = Respond MissingInput
  /\ ask (mkAskBody None (Some "42")) ∅ <> Respond DocumentNotFound.
Proof.
  split; [apply lookup_empty |]. split; [reflexivity | discriminate].
Qed.

(** C10, as amended.  For every record without segments stored under a
    non-empty identifier and every non-empty question, the request is not
    answered with [DocumentNotFound]: the ranking is empty, the prompt sent
    to the completion capability has the empty string for its context, and
    when the capability replies the response reports [chunksUsed = 0] and
    [contextSize = 0]; when the capability fails the response is the
    status-500 error. *)
Theorem ask_empty_document
  (documentStore : gmap string DocRecord) (id q : string) (doc : DocRecord) :
  documentStore !! id = Some doc ->
  chunks doc = [] ->
  JsString.truthy q = true ->
  JsString.truthy id = true ->
  rank (fst (simpleEmbedding q (Some (vocabulary doc)))) (chunks doc) 3 = []
  /\ exists resume,
       ask (mkAskBody (Some q) (Some id)) documentStore
       = Await (prompt_of EmptyString q) resume
       /\ (forall answer, resume (Replied answer) = AskOk answer 0 0)
       /\ (forall outcome, resume outcome <> DocumentNotFound)
       /\ (forall message, exists error, resume (Rejected message) = Status500 error).
Proof.
  intros Hdoc Hchunks Hq Hid.
  split; [rewrite Hchunks; reflexivity |].
  unfold ask. cbn [question docId]. rewrite !missing_some, Hq, Hid. simpl.
  rewrite Hdoc, Hchunks. simpl.
  eexists. split; [reflexivity |]. split; [reflexivity |].
  split; [intros []; discriminate | intros message; eexists; reflexivity].
Qed.

Lemma ask_empty_document_witness :
  Sample.store_with_empty_document !! "7" = Some (mkDocRecord [] [] 0 0)
  /\ exists resume,
       ask (mkAskBody (Some "What are mammals?") (Some "7"))
           Sample.store_with_empty_document
       = Await (prompt_of EmptyString "What are mammals?") resume
       /\ resume (Replied "I do not know.") = AskOk "I do not know." 0 0.
Proof.
  assert (H : Sample.store_with_empty_document !! "7"
              = Some (mkDocRecord [] [] 0 0)) by (vm_compute; reflexivity).
  split; [exact H |].
  destruct (ask_empty_document Sample.store_with_empty_document "7"
              "What are mammals?" (mkDocRecord [] [] 0 0) H
              eq_refl eq_refl eq_refl)
    as (_ & resume & Hask & Hreply & _).
  exists resume. split; [exact Hask | apply Hreply].
Defined.

(** C10, as stated, fails.  The store holds a record without segments under
    ["7"], but a request for it with an empty question is answered with
    [MissingInput]: nothing is sent to the completion capability and the
    response reports neither [chunksUsed] nor [contextSize]. *)
Lemma empty_question_reports_no_chunks :
  Sample.store_with_empty_document !! "7" = Some (mkDocRecord [] [] 0 0)
  /\ ask (mkAskBody (Some EmptyString) (Some "7")) Sample.store_with_empty_document
     = Respond MissingInput
  /\ calls_completion
       (ask (mkAskBody (Some EmptyString) (Some "7"))
            Sample.store_with_empty_document) = false.
Proof.
  split; [vm_compute; reflexivity |]. split; reflexivity.
Qed.

(** * Further properties *)

(** ** The chunker *)

Section ChunkerLoop.

Lemma length_append (s t : string) :
  String.length (s +:+ t) = (String.length s + String.length t)%nat.
Proof.
  induction s as [| c s IH]; [reflexivity |].
  rewrite append_cons. simpl. rewrite IH. reflexivity.
Qed.

Lemma truthy_length (s : string) :
  JsString.truthy s = (0 <? String.length s)%nat.
Proof. destruct s; reflexivity. Qed.

Lemma truthy_next_buffer overlap cur para :
  JsString.truthy (next_buffer overlap cur para) = true.
Proof.
  rewrite truthy_length. unfold next_buffer.
  rewrite !length_append. simpl. apply Nat.ltb_lt. lia.
Qed.

(** A property of the loop variables that every iteration keeps holds when
    the loop is left. *)
Lemma chunk_loop_invariant (P : ChunkLoop -> Prop) chunkSize overlap :
  (forall st para, P st -> P (chunk_step chunkSize overlap st para)) ->
  forall paragraphs st,
    P st -> P (fold_left (chunk_step chunkSize overlap) paragraphs st).
Proof.
  intros Hstep paragraphs.
  induction paragraphs as [| para rest IH]; intros st Hst; simpl.
  - exact Hst.
  - apply IH, Hstep, Hst.
Qed.

Lemma chunk_step_numbers chunkSize overlap st para :
  map id (chunks_so_far st) = seq 0 (chunkIndex st) ->
  map id (chunks_so_far (chunk_step chunkSize overlap st para))
  = seq 0 (chunkIndex (chunk_step chunkSize overlap st para)).
Proof.
  intros Hst. unfold chunk_step.
  destruct (closes chunkSize (currentChunk st) para);
    cbn [chunks_so_far chunkIndex]; [| exact Hst].
  rewrite map_app, Hst, seq_S. reflexivity.
Qed.

End ChunkerLoop.

Lemma chunkText_ids (document : string) (chunkSize overlap : Z) :
  map id (chunkText document chunkSize overlap)
  = seq 0 (List.length (chunkText document chunkSize overlap)).
Proof.
  assert (H : forall l n, map id l = seq 0 n -> map id l = seq 0 (List.length l)).
  { intros l n Hl. pose proof (f_equal (@List.length nat) Hl) as Hlen.
    rewrite length_map, length_seq in Hlen. rewrite Hlen. exact Hl. }
  unfold chunkText.
  pose proof (chunk_loop_invariant
                (fun st => map id (chunks_so_far st) = seq 0 (chunkIndex st))
                chunkSize overlap
                (chunk_step_numbers chunkSize overlap)
                (JsString.split_paragraphs document) chunk_init eq_refl) as Hloop.
  set (st := fold_left _ _ _) in *. unfold chunk_flush.
  destruct (JsString.truthy (JsString.trim (currentChunk st))).
  - apply (H _ (S (chunkIndex st))).
    rewrite map_app, Hloop, seq_S. reflexivity.
  - apply (H _ (chunkIndex st)), Hloop.
Qed.

(** X1.  The segments [chunkText] returns are numbered 0, 1, 2, ... in the
    order they are returned, without gap or repetition: the segment at
    position [i] has the id [i]. *)
Theorem chunkText_numbers_segments (document : string) (chunkSize overlap : Z) :
  map id (chunkText document chunkSize overlap)
  = seq 0 (List.length (chunkText document chunkSize overlap))
  /\ forall i c, chunkText document chunkSize overlap !! i = Some c -> id c = i.
Proof.
  pose proof (chunkText_ids document chunkSize overlap) as Hids.
  split; [exact Hids |].
  intros i c Hc.
  assert (Hi : map id (chunkText document chunkSize overlap) !! i = Some (id c))
    by (rewrite list_lookup_fmap, Hc; reflexivity).
  rewrite Hids in Hi. apply lookup_seq in Hi as [Hi _]. simpl in Hi. congruence.
Qed.

Section ChunkerCount.

Lemma closes_truthy chunkSize cur para :
  closes chunkSize cur para = true -> JsString.truthy cur = true.
Proof.
  unfold closes. intros H. apply andb_prop in H as [_ H].
  rewrite truthy_length. apply Nat.ltb_lt. apply Z.ltb_lt in H. lia.
Qed.

Lemma pending_step chunkSize overlap st para :
  (Shape.pending (chunk_step chunkSize overlap st para)
   <= S (Shape.pending st))%nat.
Proof.
  unfold chunk_step, Shape.pending.
  destruct (closes chunkSize (currentChunk st) para) eqn:Hclose;
    cbn [chunks_so_far currentChunk].
  - rewrite (closes_truthy _ _ _ Hclose), truthy_next_buffer, length_app.
    simpl. lia.
  - destruct (JsString.truthy (currentChunk st));
      destruct (JsString.truthy _); lia.
Qed.

Lemma pending_loop chunkSize overlap paragraphs st :
  (Shape.pending (fold_left (chunk_step chunkSize overlap) paragraphs st)
   <= Shape.pending st + List.length paragraphs)%nat.
Proof.
  revert st. induction paragraphs as [| para rest IH]; intros st; simpl.
  - lia.
  - pose proof (IH (chunk_step chunkSize overlap st para)) as H1.
    pose proof (pending_step chunkSize overlap st para) as H2. lia.
Qed.

Lemma trim_truthy s :
  JsString.truthy (JsString.trim s) = true -> JsString.truthy s = true.
Proof. destruct s; [discriminate | reflexivity]. Qed.

Lemma chunk_flush_length st :
  (List.length (chunk_flush st) <= Shape.pending st)%nat.
Proof.
  unfold chunk_flush, Shape.pending.
  destruct (JsString.truthy (JsString.trim (currentChunk st))) eqn:Htrim.
  - rewrite (trim_truthy _ Htrim), length_app. simpl. lia.
  - lia.
Qed.

End ChunkerCount.

(** X2.  [chunkText] never returns more segments than the text has
    paragraphs. *)
Theorem chunkText_at_most_one_segment_per_paragraph
  (text : string) (chunkSize overlap : Z) :
  (List.length (chunkText text chunkSize overlap)
   <= List.length (JsString.split_paragraphs text))%nat.
Proof.
  unfold chunkText.
  pose proof (chunk_flush_length
                (fold_left (chunk_step chunkSize overlap)
                           (JsString.split_paragraphs text) chunk_init)) as H1.
  pose proof (pending_loop chunkSize overlap
                (JsString.split_paragraphs text) chunk_init) as H2.
  change (Shape.pending chunk_init) with 0%nat in H2. lia.
Qed.

Section ChunkerBudget.

(** The paragraphs of a text, separators included, take no more code units
    than the text (the 2 accounts for the separator counted after the last
    paragraph). *)
Lemma split_paragraphs_from_size s :
  (forall insep cur,
     (Shape.paragraphs_size (JsString.split_paragraphs_from insep cur s)
      <= 2 + String.length cur + String.length s)%nat)
  /\ (forall cur,
        JsString.starts_with_lf s = true ->
        (S (Shape.paragraphs_size (JsString.split_paragraphs_from true cur s))
         <= 2 + String.length cur + String.length s)%nat).
Proof.
  induction s as [| c s [IHa IHb]].
  - split; [intros insep cur; simpl; lia | discriminate].
  - split.
    + intros insep cur. simpl JsString.split_paragraphs_from.
      destruct (insep && JsString.is_lf c).
      * pose proof (IHa true cur). simpl. lia.
      * destruct (JsString.is_lf c && JsString.starts_with_lf s) eqn:Hsep.
        -- apply andb_prop in Hsep as [_ Hnext].
           pose proof (IHb EmptyString Hnext). simpl in *. lia.
        -- pose proof (IHa false (cur +:+ String c EmptyString)) as H.
           rewrite length_append in H. simpl in *. lia.
    + intros cur Hlf. simpl in Hlf. simpl JsString.split_paragraphs_from.
      rewrite Hlf. simpl andb. cbv iota.
      pose proof (IHa true cur). simpl. lia.
Qed.

(** While buffer and paragraphs to come fit the chunk size, no segment is
    closed. *)
Lemma no_close_within_budget chunkSize overlap paragraphs st :
  chunks_so_far st = [] ->
  Z.of_nat (String.length (currentChunk st) + Shape.paragraphs_size paragraphs)
  <= chunkSize + (if JsString.truthy (currentChunk st) then 0 else 2) ->
  chunks_so_far (fold_left (chunk_step chunkSize overlap) paragraphs st) = [].
Proof.
  revert st. induction paragraphs as [| para rest IH]; intros st Hnone Hfit.
  - exact Hnone.
  - simpl fold_left. simpl Shape.paragraphs_size in Hfit.
    assert (Hopen : closes chunkSize (currentChunk st) para = false).
    { unfold closes. rewrite length_append.
      destruct (currentChunk st) as [| c cur]; simpl in *.
      - apply andb_false_r.
      - apply andb_false_intro1. rewrite Z.gtb_ltb. apply Z.ltb_ge. lia. }
    apply IH.
    + unfold chunk_step. rewrite Hopen. exact Hnone.
    + unfold chunk_step. rewrite Hopen. cbn [currentChunk].
      rewrite !length_append.
      destruct (currentChunk st) as [| c cur]; simpl in *.
      * change (JsString.truthy (EmptyString +:+ EmptyString +:+ para))
          with (JsString.truthy para).
        destruct (JsString.truthy para); lia.
      * lia.
Qed.

End ChunkerBudget.

(** X3.  A text no longer than the chunk size is never split: whatever the
    overlap, [chunkText] returns at most one segment. *)
Theorem chunkText_short_text_one_segment
  (text : string) (chunkSize overlap : Z) :
  Z.of_nat (String.length text) <= chunkSize ->
  (List.length (chunkText text chunkSize overlap) <= 1)%nat.
Proof.
  intros Hshort. unfold chunkText, chunk_flush.
  rewrite (no_close_within_budget chunkSize overlap
             (JsString.split_paragraphs text) chunk_init eq_refl).
  - destruct (JsString.truthy _); simpl; lia.
  - pose proof (proj1 (split_paragraphs_from_size text) false EmptyString) as H.
    unfold JsString.split_paragraphs. simpl in *. lia.
Qed.

Lemma chunkText_short_text_one_segment_witness :
  Z.of_nat (String.length Sample.long_document) <= 4000
  /\ (List.length (chunkText Sample.long_document 4000 150) <= 1)%nat.
Proof.
  assert (H : Z.of_nat (String.length Sample.long_document) <= 4000)
    by (vm_compute; discriminate).
  split; [exact H |].
  apply (chunkText_short_text_one_segment Sample.long_document 4000 150 H).
Defined.

Section Trimming.

Lemma trimStart_starts s : Shape.starts_with_space (JsString.trimStart s) = false.
Proof.
  induction s as [| c s IH]; [reflexivity |].
  simpl. destruct (JsString.is_space c) eqn:Hc; [exact IH |].
  simpl. exact Hc.
Qed.

Lemma trimEnd_cons c s :
  JsString.trimEnd (String c s)
  = match JsString.trimEnd s with
    | EmptyString =>
        if JsString.is_space c then EmptyString else String c EmptyString
    | String a t => String c (String a t)
    end.
Proof. reflexivity. Qed.

Lemma trimEnd_starts s :
  Shape.starts_with_space s = false ->
  Shape.starts_with_space (JsString.trimEnd s) = false.
Proof.
  destruct s as [| c s]; [reflexivity |].
  intros Hc. simpl in Hc. rewrite trimEnd_cons.
  destruct (JsString.trimEnd s); [rewrite Hc |]; simpl; exact Hc.
Qed.

Lemma trimEnd_ends s : Shape.ends_with JsString.is_space (JsString.trimEnd s) = false.
Proof.
  induction s as [| c s IH]; [reflexivity |].
  rewrite trimEnd_cons. destruct (JsString.trimEnd s) as [| a t].
  - destruct (JsString.is_space c) eqn:Hc; [reflexivity | simpl; exact Hc].
  - exact IH.
Qed.

(** [trim] leaves white space at neither end. *)
Lemma trim_trimmed s : Shape.trimmed (JsString.trim s).
Proof.
  split; [apply trimEnd_starts, trimStart_starts | apply trimEnd_ends].
Qed.

Lemma chunk_step_trimmed chunkSize overlap st para :
  Forall (fun c => Shape.trimmed (text c)) (chunks_so_far st) ->
  Forall (fun c => Shape.trimmed (text c))
         (chunks_so_far (chunk_step chunkSize overlap st para)).
Proof.
  intros Hst. unfold chunk_step.
  destruct (closes chunkSize (currentChunk st) para);
    cbn [chunks_so_far]; [| exact Hst].
  apply Forall_app. split; [exact Hst |].
  constructor; [apply trim_trimmed | constructor].
Qed.

End Trimming.

(** X4.  No segment [chunkText] returns has white space at its start or at
    its end. *)
Theorem chunkText_segments_trimmed (document : string) (chunkSize overlap : Z) :
  Forall (fun c => Shape.trimmed (text c)) (chunkText document chunkSize overlap).
Proof.
  unfold chunkText.
  pose proof (chunk_loop_invariant
                (fun st => Forall (fun c => Shape.trimmed (text c))
                                  (chunks_so_far st))
                chunkSize overlap
                (chunk_step_trimmed chunkSize overlap)
                (JsString.split_paragraphs document) chunk_init
                (List.Forall_nil _)) as Hloop.
  set (st := fold_left _ _ _) in *. unfold chunk_flush.
  destruct (JsString.truthy (JsString.trim (currentChunk st))); [| exact Hloop].
  apply Forall_app. split; [exact Hloop |].
  constructor; [apply trim_trimmed | constructor].
Qed.

Section Splitting.

Lemma all_chars_append P s t :
  Shape.all_chars P (s +:+ t) = Shape.all_chars P s && Shape.all_chars P t.
Proof.
  induction s as [| c s IH]; [reflexivity |].
  rewrite append_cons. simpl. rewrite IH. apply andb_assoc.
Qed.

Lemma split_char_from_pieces sep cur s :
  Shape.all_chars (fun c => negb (Ascii.eqb c sep)) cur = true ->
  Forall (fun p => Shape.all_chars (fun c => negb (Ascii.eqb c sep)) p = true)
         (JsString.split_char_from sep cur s).
Proof.
  revert cur. induction s as [| c s IH]; intros cur Hcur; simpl.
  - constructor; [exact Hcur | constructor].
  - destruct (Ascii.eqb c sep) eqn:Hc.
    + constructor; [exact Hcur | apply IH; reflexivity].
    + apply IH. rewrite all_chars_append, Hcur. simpl. rewrite Hc. reflexivity.
Qed.

End Splitting.

(** X5.  Splitting a string on a character and joining the pieces with
    that character gives the string back, and no piece contains the
    character. *)
Theorem split_char_join_round_trip (sep : ascii) (s : string) :
  JsString.join (String sep EmptyString) (JsString.split_char sep s) = s
  /\ Forall (fun p => Shape.all_chars (fun c => negb (Ascii.eqb c sep)) p = true)
            (JsString.split_char sep s).
Proof.
  split; [apply join_split_char | apply split_char_from_pieces; reflexivity].
Qed.

Section Paragraphs.

Lemma has_blank_line_snoc cur c :
  Shape.has_blank_line (cur +:+ String c EmptyString)
  = Shape.has_blank_line cur
    || (Shape.ends_with JsString.is_lf cur && JsString.is_lf c).
Proof.
  induction cur as [| a cur IH]; [simpl; now rewrite andb_false_r |].
  rewrite append_cons. simpl Shape.has_blank_line. rewrite IH.
  destruct cur as [| b cur].
  - simpl. destruct (JsString.is_lf a), (JsString.is_lf c); reflexivity.
  - rewrite append_cons. simpl.
    destruct (JsString.is_lf a && JsString.is_lf b),
             (Shape.has_blank_line cur); simpl; reflexivity.
Qed.

Lemma ends_with_snoc P cur c :
  Shape.ends_with P (cur +:+ String c EmptyString) = P c.
Proof.
  induction cur as [| a cur IH]; [reflexivity |].
  rewrite append_cons. simpl. destruct (cur +:+ String c EmptyString) eqn:E.
  - destruct cur; discriminate.
  - exact IH.
Qed.

Lemma split_paragraphs_from_no_blank_line s :
  forall insep cur,
    Shape.has_blank_line cur = false ->
    (insep = false -> Shape.ends_with JsString.is_lf cur = true ->
     JsString.starts_with_lf s = false) ->
    Forall (fun p => Shape.has_blank_line p = false)
           (JsString.split_paragraphs_from insep cur s).
Proof.
  induction s as [| c s IH]; intros insep cur Hcur Hend; simpl.
  - constructor; [exact Hcur | constructor].
  - destruct (insep && JsString.is_lf c) eqn:Hskip.
    + apply IH; [exact Hcur | discriminate].
    + destruct (JsString.is_lf c && JsString.starts_with_lf s) eqn:Hsep.
      * constructor; [exact Hcur |]. apply IH; [reflexivity | discriminate].
      * apply IH.
        -- rewrite has_blank_line_snoc, Hcur. simpl.
           destruct (JsString.is_lf c) eqn:Hc; [| apply andb_false_r].
           rewrite andb_true_r.
           destruct insep; [discriminate |].
           destruct (Shape.ends_with JsString.is_lf cur) eqn:Hlast;
             [| reflexivity].
           specialize (Hend eq_refl eq_refl). simpl in Hend. congruence.
        -- intros _. rewrite ends_with_snoc. intros Hc.
           rewrite Hc in Hsep. exact Hsep.
Qed.

End Paragraphs.

(** X6.  No paragraph that [split(/\n\n+/)] returns contains two line
    feeds in a row. *)
Theorem split_paragraphs_no_blank_line (text : string) :
  Forall (fun p => Shape.has_blank_line p = false)
         (JsString.split_paragraphs text).
Proof.
  apply split_paragraphs_from_no_blank_line; [reflexivity | discriminate].
Qed.

(** ** Tokens and vocabulary *)

Section TokenShape.

Lemma lower_char_not_upper c : Shape.is_upper (Tokens.lower_char c) = false.
Proof. destruct c as [[] [] [] [] [] [] [] []]; vm_compute; reflexivity. Qed.

Lemma toLowerCase_no_upper s :
  Shape.all_chars (fun c => negb (Shape.is_upper c)) (Tokens.toLowerCase s) = true.
Proof.
  induction s as [| c s IH]; [reflexivity |].
  simpl. rewrite lower_char_not_upper, IH. reflexivity.
Qed.

Lemma runs_from_shape s :
  forall cur,
    Shape.all_chars Shape.is_token_char cur = true ->
    Shape.all_chars (fun c => negb (Shape.is_upper c)) s = true ->
    Forall (fun t => JsString.truthy t = true
                     /\ Shape.all_chars Shape.is_token_char t = true)
           (Reference.runs_from Tokens.is_word cur s).
Proof.
  assert (Hone : forall cur,
            Shape.all_chars Shape.is_token_char cur = true ->
            Forall (fun t => JsString.truthy t = true
                             /\ Shape.all_chars Shape.is_token_char t = true)
                   (Reference.singleton_if_any cur)).
  { intros cur Hcur. unfold Reference.singleton_if_any.
    destruct (JsString.truthy cur) eqn:Ht; repeat constructor; assumption. }
  induction s as [| c s IH]; intros cur Hcur Hs; simpl.
  - apply Hone, Hcur.
  - simpl in Hs. apply andb_prop in Hs as [Hc Hs].
    destruct (Tokens.is_word c) eqn:Hw.
    + apply IH; [| exact Hs].
      rewrite all_chars_append, Hcur. simpl.
      unfold Shape.is_token_char. rewrite Hw, Hc. reflexivity.
    + apply Forall_app. split; [apply Hone, Hcur | apply IH; [reflexivity | exact Hs]].
Qed.

End TokenShape.

(** X7.  Every token of a text is a non-empty string of word characters
    none of which is an upper-case letter. *)
Theorem tokens_are_lower_case_words (document : string) :
  Forall (fun t => JsString.truthy t = true
                   /\ Shape.all_chars Shape.is_token_char t = true)
         (Tokens.tokens document).
Proof.
  unfold Tokens.tokens. rewrite match_words_runs.
  apply runs_from_shape; [reflexivity | apply toLowerCase_no_upper].
Qed.

Section VocabularyShape.

Lemma existsb_eqb_elem w (seen : list string) :
  existsb (String.eqb w) seen = true <-> w ∈ seen.
Proof.
  rewrite existsb_exists, list_elem_of_In. split.
  - intros (x & Hx & Heq). apply String.eqb_eq in Heq. subst x. exact Hx.
  - intros Hw. exists w. split; [exact Hw | apply String.eqb_refl].
Qed.

Lemma set_add_NoDup seen w : NoDup seen -> NoDup (Tokens.set_add seen w).
Proof.
  intros Hseen. unfold Tokens.set_add.
  destruct (existsb (String.eqb w) seen) eqn:Hw; [exact Hseen |].
  apply NoDup_app. split; [exact Hseen |]. split.
  - intros x Hx Hxw. apply list_elem_of_singleton in Hxw. subst x.
    apply existsb_eqb_elem in Hx. congruence.
  - apply NoDup_singleton.
Qed.

Lemma set_of_from_NoDup words seen :
  NoDup seen -> NoDup (fold_left Tokens.set_add words seen).
Proof.
  revert seen. induction words as [| w words IH]; intros seen Hseen; simpl.
  - exact Hseen.
  - apply IH, set_add_NoDup, Hseen.
Qed.

Lemma set_of_from_elem words seen x :
  x ∈ fold_left Tokens.set_add words seen -> x ∈ seen \/ x ∈ words.
Proof.
  revert seen. induction words as [| w words IH]; intros seen Hx; simpl in Hx.
  - left. exact Hx.
  - apply IH in Hx as [Hx | Hx].
    + unfold Tokens.set_add in Hx.
      destruct (existsb (String.eqb w) seen); [left; exact Hx |].
      apply elem_of_app in Hx as [Hx | Hx]; [left; exact Hx |].
      apply list_elem_of_singleton in Hx. subst x. right. left.
    + right. right. exact Hx.
Qed.

Lemma slice_to_take {A : Type} (stop : Z) (l : list A) :
  exists n, JsArray.slice_to stop l = take n l.
Proof. eexists. reflexivity. Qed.

Lemma buildVocabulary_NoDup (segments : list Chunk) (maxTerms : Z) :
  NoDup (buildVocabulary segments maxTerms).
Proof.
  unfold buildVocabulary.
  set (allWords := flat_map (fun chunk => Tokens.tokens (text chunk)) segments).
  destruct (slice_to_take maxTerms (Tokens.set_of allWords)) as [n ->].
  assert (H : NoDup (Tokens.set_of allWords))
    by (apply set_of_from_NoDup, NoDup_nil_2).
  rewrite <- (take_drop n (Tokens.set_of allWords)) in H.
  apply NoDup_app in H as [H _]. exact H.
Qed.

End VocabularyShape.

(** X8.  Whatever the limit, the vocabulary [buildVocabulary] returns has
    no term twice, and each of its terms is a token of one of the
    segments. *)
Theorem buildVocabulary_distinct_terms (segments : list Chunk) (maxTerms : Z) :
  NoDup (buildVocabulary segments maxTerms)
  /\ forall w, w ∈ buildVocabulary segments maxTerms ->
       exists segment, segment ∈ segments /\ w ∈ Tokens.tokens (text segment).
Proof.
  split; [apply buildVocabulary_NoDup |].
  unfold buildVocabulary.
  set (allWords := flat_map (fun chunk => Tokens.tokens (text chunk)) segments).
  destruct (slice_to_take maxTerms (Tokens.set_of allWords)) as [n ->].
  - intros w Hw.
    assert (Hin : w ∈ Tokens.set_of allWords).
    { rewrite <- (take_drop n (Tokens.set_of allWords)).
      apply elem_of_app. left. exact Hw. }
    apply set_of_from_elem in Hin as [Hin | Hin];
      [apply elem_of_nil in Hin; contradiction |].
    apply list_elem_of_In, in_flat_map in Hin as (segment & Hseg & Htok).
    exists segment. split; apply list_elem_of_In; assumption.
Qed.

(** ** The vectorizer *)

Section VectorEntries.

Lemma not_on_prototype w :
  on_prototype w = false -> String.eqb w "__proto__" = false.
Proof.
  intros Hw. destruct (String.eqb_spec w "__proto__") as [-> | _];
    [discriminate Hw | reflexivity].
Qed.

Lemma get_property_own own w :
  on_prototype w = false -> get_property own w = own !! w.
Proof.
  intros Hw. unfold get_property.
  rewrite (not_on_prototype w Hw), Hw.
  destruct (own !! w); reflexivity.
Qed.

Lemma occurrences_cons w x words :
  Shape.occurrences w (x :: words)
  = if String.eqb w x then S (Shape.occurrences w words)
    else Shape.occurrences w words.
Proof.
  unfold Shape.occurrences. simpl. destruct (String.eqb w x); reflexivity.
Qed.

(** One occurrence changes the property of its own word only. *)
Lemma count_word_lookup own x w :
  on_prototype w = false ->
  count_word own x !! w
  = if String.eqb w x then Shape.incremented (own !! w) else own !! w.
Proof.
  intros Hw. pose proof (not_on_prototype w Hw) as Hp.
  unfold count_word, set_property.
  destruct (String.eqb_spec x "__proto__") as [-> | Hx].
  - rewrite Hp. reflexivity.
  - destruct (String.eqb_spec w x) as [<- | Hne].
    + rewrite lookup_insert_eq, (get_property_own own w Hw). reflexivity.
    + rewrite lookup_insert_ne by congruence. reflexivity.
Qed.

Lemma wordCounts_lookup words own w :
  on_prototype w = false ->
  fold_left count_word words own !! w
  = Nat.iter (Shape.occurrences w words) Shape.incremented (own !! w).
Proof.
  intros Hw. revert own.
  induction words as [| x words IH]; intros own; [reflexivity |].
  simpl fold_left. rewrite IH, count_word_lookup, occurrences_cons by exact Hw.
  destruct (String.eqb w x); [| reflexivity].
  rewrite Nat.iter_succ_r. reflexivity.
Qed.

(** An inherited name, once written, holds no number. *)
Lemma wordCounts_inherited w words own :
  on_prototype w = true ->
  w <> "__proto__" ->
  own !! w = None \/ own !! w = Some NonNumeric ->
  fold_left count_word words own !! w = None
  \/ fold_left count_word words own !! w = Some NonNumeric.
Proof.
  intros Hw Hne. revert own.
  induction words as [| x words IH]; intros own Hown; [exact Hown |].
  simpl fold_left. apply IH.
  unfold count_word, set_property.
  destruct (String.eqb_spec x "__proto__") as [-> | Hx]; [exact Hown |].
  destruct (String.eqb_spec x w) as [-> | Hxw].
  - right. rewrite lookup_insert_eq. unfold get_property.
    destruct (String.eqb_spec w "__proto__") as [Heq | _]; [contradiction |].
    rewrite Hw. destruct Hown as [-> | ->]; reflexivity.
  - rewrite lookup_insert_ne by exact Hxw. exact Hown.
Qed.

Lemma fill_vector_before wordCounts vocabulary :
  forall idx vector i,
    (i < idx)%nat ->
    fill_vector wordCounts idx vocabulary vector !! i = vector !! i.
Proof.
  induction vocabulary as [| word rest IH]; intros idx vector i Hi; simpl.
  - reflexivity.
  - rewrite IH by lia. apply list_lookup_insert_ne. lia.
Qed.

Lemma fill_vector_lookup wordCounts vocabulary :
  forall idx vector j w,
    vocabulary !! j = Some w ->
    (idx + j < List.length vector)%nat ->
    fill_vector wordCounts idx vocabulary vector !! (idx + j)%nat
    = Some (or_zero (get_property wordCounts w)).
Proof.
  induction vocabulary as [| word rest IH]; intros idx vector j w Hj Hlen.
  - discriminate.
  - simpl fill_vector. destruct j as [| j].
    + injection Hj as ->. rewrite Nat.add_0_r in *.
      rewrite fill_vector_before by lia.
      apply list_lookup_insert_eq. exact Hlen.
    + replace (idx + S j)%nat with (S idx + j)%nat by lia.
      apply IH; [exact Hj |]. rewrite length_insert. lia.
Qed.

(** What the vector holds for the [i]-th term of the vocabulary. *)
Lemma simpleEmbedding_entry document (vocabulary : list string) i w :
  vocabulary !! i = Some w ->
  fst (simpleEmbedding document (Some vocabulary)) !! i
  = Some (if on_prototype w then NonNumeric
          else or_zero (Shape.value_after
                          (Shape.occurrences w (Tokens.tokens document)))).
Proof.
  intros Hi. unfold simpleEmbedding. cbn [fst].
  rewrite (fill_vector_lookup _ vocabulary 0 _ i w Hi).
  2:{ rewrite length_replicate. simpl. eapply lookup_lt_Some, Hi. }
  f_equal. destruct (on_prototype w) eqn:Hw.
  - unfold get_property.
    destruct (String.eqb_spec w "__proto__") as [-> | Hne]; [reflexivity |].
    rewrite Hw.
    destruct (wordCounts_inherited w (Tokens.tokens document) ∅ Hw Hne)
      as [-> | ->];
      [left; apply lookup_empty | reflexivity | reflexivity].
  - rewrite (get_property_own _ w Hw), (wordCounts_lookup _ ∅ w Hw), lookup_empty.
    reflexivity.
Qed.

Lemma occurrences_none w words :
  ~ In w words -> Shape.occurrences w words = 0%nat.
Proof.
  intros Hw. induction words as [| x words IH]; [reflexivity |].
  rewrite occurrences_cons.
  destruct (String.eqb_spec w x) as [-> | _]; [exfalso; apply Hw; left; reflexivity |].
  apply IH. intros Hin. apply Hw. right. exact Hin.
Qed.

Lemma occurrences_permutation w words words' :
  Permutation words words' ->
  Shape.occurrences w words = Shape.occurrences w words'.
Proof.
  intros H. induction H as [| x l l' _ IH | x y l | l l' l'' _ IH1 _ IH2].
  - reflexivity.
  - rewrite !occurrences_cons, IH. reflexivity.
  - rewrite !occurrences_cons.
    destruct (String.eqb w x), (String.eqb w y); reflexivity.
  - congruence.
Qed.

End VectorEntries.

(** X9.  For a term of the vocabulary that is not the name of a property
    inherited from [Object.prototype], the entry of the vector depends on
    the text only through the number of times the term occurs among its
    tokens: it is the value [n] increments from [undefined] leave, or 0
    when that is falsy. *)
Theorem simpleEmbedding_counts_occurrences
  (document : string) (vocabulary : list string) (i : nat) (w : string) :
  vocabulary !! i = Some w ->
  on_prototype w = false ->
  fst (simpleEmbedding document (Some vocabulary)) !! i
  = Some (or_zero (Shape.value_after
                     (Shape.occurrences w (Tokens.tokens document)))).
Proof.
  intros Hi Hw. rewrite (simpleEmbedding_entry document vocabulary i w Hi), Hw.
  reflexivity.
Qed.

Lemma simpleEmbedding_counts_occurrences_witness :
  ["cats"; "dogs"; "birds"] !! 0%nat = Some "cats"
  /\ on_prototype "cats" = false
  /\ Shape.occurrences "cats" (Tokens.tokens "Cats chase cats; dogs chase CATS.")
     = 3%nat
  /\ fst (simpleEmbedding "Cats chase cats; dogs chase CATS."
            (Some ["cats"; "dogs"; "birds"])) !! 0%nat
     = Some (Number (of_Z 3)).
Proof.
  split; [reflexivity |]. split; [reflexivity |]. split; [reflexivity |].
  rewrite (simpleEmbedding_counts_occurrences
             "Cats chase cats; dogs chase CATS." ["cats"; "dogs"; "birds"]
             0 "cats" eq_refl eq_refl).
  vm_compute. reflexivity.
Defined.

(** X10.  For a term that is the name of a property inherited from
    [Object.prototype] ([constructor], [__proto__], [toString], ...) the
    entry of the vector is never a number, whatever the text: [wordCounts]
    is an object literal and inherits properties of these names. *)
Theorem simpleEmbedding_inherited_names
  (document : string) (vocabulary : list string) (i : nat) (w : string) :
  vocabulary !! i = Some w ->
  on_prototype w = true ->
  fst (simpleEmbedding document (Some vocabulary)) !! i = Some NonNumeric.
Proof.
  intros Hi Hw. rewrite (simpleEmbedding_entry document vocabulary i w Hi), Hw.
  reflexivity.
Qed.

Lemma simpleEmbedding_inherited_names_witness :
  ["class"; "constructor"] !! 1%nat = Some "constructor"
  /\ on_prototype "constructor" = true
  /\ fst (simpleEmbedding "The class has no methods."
            (Some ["class"; "constructor"])) !! 1%nat
     = Some NonNumeric.
Proof.
  split; [reflexivity |]. split; [reflexivity |].
  apply (simpleEmbedding_inherited_names
           "The class has no methods." ["class"; "constructor"]
           1 "constructor" eq_refl eq_refl).
Defined.

(** A term with a capital, which no token can spell, reads the inherited
    function all the same. *)
Example simpleEmbedding_toString :
  fst (simpleEmbedding "to string or not" (Some ["string"; "toString"; "valueOf"]))
  = [Number (of_Z 1); NonNumeric; NonNumeric].
Proof. vm_compute. reflexivity. Qed.

(** X11.  A text none of whose tokens is in the vocabulary (a vocabulary
    without names inherited from [Object.prototype]) gets the zero
    vector. *)
Theorem simpleEmbedding_outside_vocabulary
  (document : string) (vocabulary : list string) :
  Forall (fun w => on_prototype w = false /\ ~ In w (Tokens.tokens document))
         vocabulary ->
  fst (simpleEmbedding document (Some vocabulary))
  = replicate (List.length vocabulary) (Number (of_Z 0)).
Proof.
  intros Hvocabulary. apply list_eq. intros i.
  destruct (vocabulary !! i) as [w |] eqn:Hi.
  - rewrite (simpleEmbedding_entry document vocabulary i w Hi).
    rewrite Forall_forall in Hvocabulary.
    destruct (Hvocabulary w (list_elem_of_lookup_2 _ _ _ Hi)) as [-> Hout].
    rewrite (occurrences_none w _ Hout).
    symmetry. apply lookup_replicate_2. eapply lookup_lt_Some, Hi.
  - apply lookup_ge_None in Hi.
    rewrite (proj2 (lookup_ge_None _ _)), (proj2 (lookup_ge_None _ _));
      [reflexivity | rewrite length_replicate; exact Hi
       | rewrite simpleEmbedding_length; exact Hi].
Qed.

Lemma simpleEmbedding_outside_vocabulary_witness :
  Forall (fun w => on_prototype w = false /\ ~ In w (Tokens.tokens "Hello?"))
         ["cats"; "dogs"]
  /\ fst (simpleEmbedding "Hello?" (Some ["cats"; "dogs"]))
     = [Number (of_Z 0); Number (of_Z 0)].
Proof.
  assert (H : Forall (fun w => on_prototype w = false
                               /\ ~ In w (Tokens.tokens "Hello?"))
                     ["cats"; "dogs"]).
  { repeat constructor; vm_compute; intros [H | []]; discriminate H. }
  split; [exact H |].
  apply (simpleEmbedding_outside_vocabulary "Hello?" ["cats"; "dogs"] H).
Defined.

(** X12.  The vector ignores the order of the words: two texts whose
    tokens are the same up to order get the same vector. *)
Theorem simpleEmbedding_ignores_order
  (document document' : string) (vocabulary : list string) :
  Permutation (Tokens.tokens document) (Tokens.tokens document') ->
  fst (simpleEmbedding document (Some vocabulary))
  = fst (simpleEmbedding document' (Some vocabulary)).
Proof.
  intros Hperm. apply list_eq. intros i.
  destruct (vocabulary !! i) as [w |] eqn:Hi.
  - rewrite !(simpleEmbedding_entry _ vocabulary i w Hi).
    rewrite (occurrences_permutation w _ _ Hperm). reflexivity.
  - apply lookup_ge_None in Hi.
    rewrite (proj2 (lookup_ge_None _ _)), (proj2 (lookup_ge_None _ _));
      [reflexivity | rewrite simpleEmbedding_length; exact Hi
       | rewrite simpleEmbedding_length; exact Hi].
Qed.

Lemma simpleEmbedding_ignores_order_witness :
  Permutation (Tokens.tokens "Dogs chase cats") (Tokens.tokens "cats chase dogs")
  /\ fst (simpleEmbedding "Dogs chase cats" (Some ["cats"; "dogs"]))
     = fst (simpleEmbedding "cats chase dogs" (Some ["cats"; "dogs"])).
Proof.
  assert (H : Permutation (Tokens.tokens "Dogs chase cats")
                          (Tokens.tokens "cats chase dogs")).
  { change (Permutation ["dogs"; "chase"; "cats"] ["cats"; "chase"; "dogs"]).
    apply (Permutation_trans (perm_swap "chase" "dogs" ["cats"])).
    apply (Permutation_trans (perm_skip "chase" (perm_swap "cats" "dogs" []))).
    apply perm_swap. }
  split; [exact H |].
  apply (simpleEmbedding_ignores_order
           "Dogs chase cats" "cats chase dogs" ["cats"; "dogs"] H).
Defined.

(** ** The score *)

Section ScoreEdges.

Lemma add_nan_r x : SFadd 53 1024 x S754_nan = S754_nan.
Proof. destruct x; reflexivity. Qed.

Lemma mul_nan_r x : SFmul 53 1024 x S754_nan = S754_nan.
Proof. destruct x; reflexivity. Qed.

Lemma div_nan_r x : SFdiv 53 1024 x S754_nan = S754_nan.
Proof. destruct x; reflexivity. Qed.

Lemma mul_comm x y : SFmul 53 1024 x y = SFmul 53 1024 y x.
Proof.
  destruct x as [sx | sx | | sx mx ex], y as [sy | sy | | sy my ey]; simpl;
    rewrite ?(xorb_comm sx sy), ?(Pos.mul_comm mx my), ?(Z.add_comm ex ey);
    reflexivity.
Qed.

Lemma fold_squares_nan (a : list spec_float) :
  fold_left (fun sum val => num_add sum (num_mul val val)) a S754_nan = S754_nan.
Proof. induction a as [| x a IH]; [reflexivity | exact IH]. Qed.

Lemma fold_squares_nan_entry (a : list spec_float) sum :
  In S754_nan a ->
  fold_left (fun sum val => num_add sum (num_mul val val)) a sum = S754_nan.
Proof.
  revert sum. induction a as [| x a IH]; intros sum Hin; [destruct Hin |].
  destruct Hin as [-> | Hin].
  - simpl. rewrite add_nan_r. apply fold_squares_nan.
  - apply IH, Hin.
Qed.

(** A vector with a NaN entry has the magnitude NaN. *)
Lemma magnitude_nan (a : list spec_float) :
  In S754_nan a -> num_sqrt (reduce_squares a) = S754_nan.
Proof.
  intros Hin. unfold reduce_squares. rewrite fold_squares_nan_entry by exact Hin.
  reflexivity.
Qed.

Lemma reduce_dot_nan (a b : list spec_float) i :
  reduce_dot a b i S754_nan = S754_nan.
Proof. revert i. induction a as [| x a IH]; intros i; [reflexivity | apply IH]. Qed.

(** Where the first vector is the longer one, the dot product reads past
    the end of the second. *)
Lemma reduce_dot_past_end (a b : list spec_float) i sum :
  (i <= List.length b < i + List.length a)%nat ->
  reduce_dot a b i sum = S754_nan.
Proof.
  revert i sum. induction a as [| x a IH]; intros i sum Hlen; simpl in *; [lia |].
  destruct (Nat.eq_dec i (List.length b)) as [-> | Hne].
  - unfold at_index. rewrite (proj2 (lookup_ge_None b (List.length b))) by lia.
    simpl. rewrite mul_nan_r, add_nan_r. apply reduce_dot_nan.
  - apply IH. lia.
Qed.

Lemma reduce_dot_comm (a b : list spec_float) :
  forall pre_a pre_b sum,
    List.length pre_a = List.length pre_b ->
    List.length a = List.length b ->
    reduce_dot a (pre_b ++ b) (List.length pre_a) sum
    = reduce_dot b (pre_a ++ a) (List.length pre_b) sum.
Proof.
  revert b. induction a as [| x a IH]; intros [| y b] pre_a pre_b sum Hpre Hlen;
    try discriminate; [reflexivity |].
  assert (Hy : (pre_b ++ y :: b) !! List.length pre_a = Some y)
    by (rewrite Hpre; apply list_lookup_middle; reflexivity).
  assert (Hx : (pre_a ++ x :: a) !! List.length pre_b = Some x)
    by (rewrite <- Hpre; apply list_lookup_middle; reflexivity).
  simpl. unfold at_index. rewrite Hy, Hx, (mul_comm x y).
  replace (pre_b ++ y :: b) with ((pre_b ++ [y]) ++ b)
    by (rewrite <- app_assoc; reflexivity).
  replace (pre_a ++ x :: a) with ((pre_a ++ [x]) ++ a)
    by (rewrite <- app_assoc; reflexivity).
  replace (S (List.length pre_a)) with (List.length (pre_a ++ [x]))
    by (rewrite length_app; simpl; lia).
  replace (S (List.length pre_b)) with (List.length (pre_b ++ [y]))
    by (rewrite length_app; simpl; lia).
  apply IH; [rewrite !length_app; simpl; lia | simpl in Hlen; lia].
Qed.

End ScoreEdges.

(** X13.  A NaN entry in either vector makes the score NaN. *)
Theorem cosineSimilarity_nan_entry (a b : list spec_float) :
  In S754_nan a \/ In S754_nan b ->
  cosineSimilarity a b = S754_nan.
Proof.
  intros [Ha | Hb]; unfold cosineSimilarity.
  - rewrite (magnitude_nan a Ha). apply div_nan_r.
  - rewrite (magnitude_nan b Hb).
    change (num_mul ?x S754_nan) with (SFmul 53 1024 x S754_nan).
    rewrite mul_nan_r. apply div_nan_r.
Qed.

Lemma cosineSimilarity_nan_entry_witness :
  (In S754_nan [of_Z 1; S754_nan] \/ In S754_nan [of_Z 1; of_Z 2])
  /\ cosineSimilarity [of_Z 1; S754_nan] [of_Z 1; of_Z 2] = S754_nan.
Proof.
  assert (H : In S754_nan [of_Z 1; S754_nan] \/ In S754_nan [of_Z 1; of_Z 2])
    by (left; right; left; reflexivity).
  split; [exact H |].
  apply (cosineSimilarity_nan_entry [of_Z 1; S754_nan] [of_Z 1; of_Z 2] H).
Defined.

(** X14.  When the first vector is longer than the second, the score is
    NaN: the dot product multiplies by [undefined]. *)
Theorem cosineSimilarity_longer_query (a b : list spec_float) :
  (List.length b < List.length a)%nat ->
  cosineSimilarity a b = S754_nan.
Proof.
  intros Hlen. unfold cosineSimilarity.
  rewrite (reduce_dot_past_end a b 0) by lia. reflexivity.
Qed.

Lemma cosineSimilarity_longer_query_witness :
  (List.length [of_Z 2] < List.length [of_Z 1; of_Z 0])%nat
  /\ cosineSimilarity [of_Z 1; of_Z 0] [of_Z 2] = S754_nan.
Proof.
  assert (H : (List.length [of_Z 2] < List.length [of_Z 1; of_Z 0])%nat)
    by (simpl; lia).
  split; [exact H |].
  apply (cosineSimilarity_longer_query [of_Z 1; of_Z 0] [of_Z 2] H).
Defined.

(** X15.  On vectors of equal length the score is symmetric, bit for
    bit. *)
Theorem cosineSimilarity_symmetric (a b : list spec_float) :
  List.length a = List.length b ->
  cosineSimilarity a b = cosineSimilarity b a.
Proof.
  intros Hlen. unfold cosineSimilarity.
  pose proof (reduce_dot_comm a b [] [] num_zero eq_refl Hlen
              : reduce_dot a b 0%nat num_zero = reduce_dot b a 0%nat num_zero)
    as Hdot.
  rewrite Hdot.
  change (num_mul ?x ?y) with (SFmul 53 1024 x y).
  rewrite (mul_comm (num_sqrt (reduce_squares a))). reflexivity.
Qed.

Lemma cosineSimilarity_symmetric_witness :
  List.length [of_Z 1; of_Z 2] = List.length [of_Z 3; of_Z 1]
  /\ cosineSimilarity [of_Z 1; of_Z 2] [of_Z 3; of_Z 1]
     = cosineSimilarity [of_Z 3; of_Z 1] [of_Z 1; of_Z 2].
Proof.
  split; [reflexivity |].
  apply (cosineSimilarity_symmetric [of_Z 1; of_Z 2] [of_Z 3; of_Z 1] eq_refl).
Defined.

(** X16.  When the vocabulary of a document contains the name of a
    property inherited from [Object.prototype] ([constructor] and
    [__proto__] are the two a lower-cased token can spell), every question
    scores NaN against every segment: the question's vector has an entry
    that is no number. *)
Theorem score_chunk_inherited_name
  (vocabulary : list string) (asked : string) (chunk : IndexedChunk) :
  (exists w, In w vocabulary /\ on_prototype w = true) ->
  similarity (score_chunk (fst (simpleEmbedding asked (Some vocabulary))) chunk)
  = S754_nan.
Proof.
  intros (w & Hin & Hw).
  apply list_elem_of_In, list_elem_of_lookup in Hin as [i Hi].
  pose proof (simpleEmbedding_entry asked vocabulary i w Hi) as Hentry.
  rewrite Hw in Hentry.
  unfold score_chunk. cbn [similarity]. unfold cosineSimilarity.
  rewrite magnitude_nan; [apply div_nan_r |].
  apply in_map_iff. exists NonNumeric. split; [reflexivity |].
  apply list_elem_of_In. eapply list_elem_of_lookup_2, Hentry.
Qed.

Lemma score_chunk_inherited_name_witness :
  (exists w, In w ["class"; "constructor"] /\ on_prototype w = true)
  /\ similarity
       (score_chunk
          (fst (simpleEmbedding "Which class?" (Some ["class"; "constructor"])))
          (index_chunk ["class"; "constructor"] (mkChunk 0 "The class is small.")))
     = S754_nan.
Proof.
  assert (H : exists w, In w ["class"; "constructor"] /\ on_prototype w = true)
    by (exists "constructor"; split; [right; left; reflexivity | reflexivity]).
  split; [exact H |].
  apply (score_chunk_inherited_name ["class"; "constructor"] "Which class?" _ H).
Defined.

(** ** The ranking *)

Section RankShape.

Lemma sort_length {A : Type} (comparefn : A -> A -> spec_float) l :
  List.length (ArraySort.sort comparefn l) = List.length l.
Proof. apply Permutation_length, sort_permutation. Qed.

Lemma rank_length questionVector candidates (topK : Z) :
  0 <= topK ->
  List.length (rank questionVector candidates topK)
  = Nat.min (Z.to_nat topK) (List.length candidates).
Proof.
  intros HtopK. unfold rank, JsArray.slice_to.
  destruct (Z.ltb_spec topK 0) as [H | _]; [lia |].
  rewrite length_firstn, sort_length, length_map. lia.
Qed.

Lemma rank_elements questionVector candidates (topK : Z) c :
  c ∈ rank questionVector candidates topK ->
  exists candidate,
    candidate ∈ candidates /\ c = score_chunk questionVector candidate.
Proof.
  unfold rank. intros Hc.
  destruct (slice_to_take topK
              (ArraySort.sort comparator
                 (map (score_chunk questionVector) candidates))) as [n Hn].
  rewrite Hn in Hc. apply elem_of_take in Hc as (i & Hc & _).
  apply list_elem_of_lookup_2 in Hc.
  rewrite (sort_permutation comparator _) in Hc.
  apply list_elem_of_In, in_map_iff in Hc as (candidate & <- & Hcand).
  exists candidate. split; [apply list_elem_of_In, Hcand | reflexivity].
Qed.

End RankShape.

(** X17.  For a limit [topK] that is not negative, the ranking returns
    [min(topK, number of candidates)] entries, each of them one of the
    candidates with its score against the question. *)
Theorem rank_returns_scored_candidates
  (questionVector : list JsValue) (candidates : list IndexedChunk) (topK : Z) :
  0 <= topK ->
  List.length (rank questionVector candidates topK)
  = Nat.min (Z.to_nat topK) (List.length candidates)
  /\ forall c, c ∈ rank questionVector candidates topK ->
       exists candidate,
         candidate ∈ candidates /\ c = score_chunk questionVector candidate.
Proof.
  intros HtopK. split; [apply rank_length, HtopK | apply rank_elements].
Qed.

Lemma rank_returns_scored_candidates_witness :
  0 <= 3
  /\ List.length
       (rank (Sample.counts [1; 0])
             [Sample.segment 0 [1; 1]; Sample.segment 1 [1; 2];
              Sample.segment 2 [0; 1]; Sample.segment 3 [1; 0]] 3)
     = 3%nat.
Proof.
  assert (H : 0 <= 3) by lia.
  split; [exact H |].
  apply (rank_returns_scored_candidates
           (Sample.counts [1; 0])
           [Sample.segment 0 [1; 1]; Sample.segment 1 [1; 2];
            Sample.segment 2 [0; 1]; Sample.segment 3 [1; 0]] 3 H).
Defined.

Section Consistency.

Context {A : Type} (comparefn : A -> A -> spec_float).

Hypothesis Hconsistent : ArraySort.consistent comparefn.

(** A comparison has exactly one of the three outcomes. *)
Lemma one_outcome x y :
  (ArraySort.goes_after comparefn x y = true
   /\ ArraySort.goes_before comparefn x y = false
   /\ ArraySort.level comparefn x y = false)
  \/ (ArraySort.goes_after comparefn x y = false
      /\ ArraySort.goes_before comparefn x y = true
      /\ ArraySort.level comparefn x y = false)
  \/ (ArraySort.goes_after comparefn x y = false
      /\ ArraySort.goes_before comparefn x y = false
      /\ ArraySort.level comparefn x y = true).
Proof.
  pose proof (ArraySort.never_nan comparefn Hconsistent x y) as Hnan.
  unfold ArraySort.goes_after, ArraySort.goes_before, ArraySort.level,
    ArraySort.positive.
  destruct (comparefn x y) as [[] | [] | | [] m e]; try discriminate Hnan;
    vm_compute; auto.
Qed.

Lemma consistent_after_asym x y :
  ArraySort.goes_after comparefn x y = true ->
  ArraySort.goes_after comparefn y x = false.
Proof.
  intros Hxy. destruct (ArraySort.goes_after comparefn y x) eqn:Hyx; [| reflexivity].
  pose proof (ArraySort.after_trans comparefn Hconsistent x y x Hxy Hyx) as Hxx.
  pose proof (ArraySort.level_refl comparefn Hconsistent x) as Hlevel.
  destruct (one_outcome x x) as [(? & ? & ?) | [(? & ? & ?) | (? & ? & ?)]];
    congruence.
Qed.

Lemma consistent_after_before x y :
  ArraySort.goes_after comparefn x y = true ->
  ArraySort.goes_before comparefn y x = true.
Proof.
  intros Hxy. pose proof (consistent_after_asym x y Hxy) as Hyx.
  destruct (one_outcome y x) as [(? & ? & ?) | [(? & ? & ?) | (? & ? & Hl)]];
    [congruence | assumption |].
  apply (ArraySort.level_sym comparefn Hconsistent) in Hl.
  destruct (one_outcome x y) as [(? & ? & ?) | [(? & ? & ?) | (? & ? & ?)]];
    congruence.
Qed.

Lemma consistent_not_after_trans x y z :
  ArraySort.goes_after comparefn x y = false ->
  ArraySort.goes_after comparefn y z = false ->
  ArraySort.goes_after comparefn x z = false.
Proof.
  intros Hxy Hyz.
  destruct (ArraySort.goes_after comparefn x z) eqn:Hxz; [| reflexivity].
  pose proof (consistent_after_before x z Hxz) as Hzx.
  destruct (one_outcome x y) as [(? & ? & ?) | [(_ & Bxy & _) | (_ & _ & Lxy)]];
    [congruence | |];
    destruct (one_outcome y z) as [(? & ? & ?) | [(_ & Byz & _) | (_ & _ & Lyz)]];
    try congruence.
  - pose proof (ArraySort.before_trans comparefn Hconsistent x y z Bxy Byz).
    destruct (one_outcome x z) as [(? & ? & ?) | [(? & ? & ?) | (? & ? & ?)]];
      congruence.
  - pose proof (ArraySort.before_trans comparefn Hconsistent z x y Hzx Bxy).
    pose proof (ArraySort.level_sym comparefn Hconsistent y z Lyz).
    destruct (one_outcome z y) as [(? & ? & ?) | [(? & ? & ?) | (? & ? & ?)]];
      congruence.
  - pose proof (ArraySort.before_trans comparefn Hconsistent y z x Byz Hzx).
    pose proof (ArraySort.level_sym comparefn Hconsistent x y Lxy).
    destruct (one_outcome y x) as [(? & ? & ?) | [(? & ? & ?) | (? & ? & ?)]];
      congruence.
  - pose proof (ArraySort.level_trans comparefn Hconsistent x y z Lxy Lyz).
    destruct (one_outcome x z) as [(? & ? & ?) | [(? & ? & ?) | (? & ? & ?)]];
      congruence.
Qed.

End Consistency.



(** ** The handlers and the store *)

Section StoreShape.

Lemma upload_parsed now document numpages (documentStore : gmap string DocRecord) :
  fst (upload now (Some (ParsedPdf document numpages)) documentStore)
  = <[toString now := make_record document numpages]> documentStore.
Proof. reflexivity. Qed.

Lemma ask_found q id doc (documentStore : gmap string DocRecord) :
  JsString.truthy q = true ->
  JsString.truthy id = true ->
  documentStore !! id = Some doc ->
  exists prompt,
    ask (mkAskBody (Some q) (Some id)) documentStore
    = Await prompt
        (fun outcome =>
           match outcome with
           | Replied answer =>
               AskOk answer
                 (List.length
                    (rank (fst (simpleEmbedding q (Some (vocabulary doc))))
                          (chunks doc) 3))
                 (String.length
                    (JsString.join section_separator
                       (map (fun c => chunk_text (scored c))
                            (rank (fst (simpleEmbedding q (Some (vocabulary doc))))
                                  (chunks doc) 3))))
           | Rejected message =>
               Status500 (if JsString.truthy message then message
                          else "Failed to get answer from AI")
           end).
Proof.
  intros Hq Hid Hdoc. unfold ask. cbn [question docId].
  rewrite !missing_some, Hq, Hid. cbn [negb orb]. rewrite Hdoc.
  eexists. reflexivity.
Qed.

Lemma make_record_shape document numpages :
  totalChunks (make_record document numpages)
  = List.length (chunks (make_record document numpages))
  /\ map chunk_id (chunks (make_record document numpages))
     = seq 0 (totalChunks (make_record document numpages))
  /\ NoDup (vocabulary (make_record document numpages)).
Proof.
  unfold make_record. cbn [totalChunks chunks vocabulary].
  split; [rewrite length_map; reflexivity |]. split.
  - rewrite map_map. cbn [index_chunk chunk_id]. apply chunkText_ids.
  - apply buildVocabulary_NoDup.
Qed.

End StoreShape.

(** X19.  A document that was just uploaded can be asked about: with the
    identifier the upload returned and a non-empty question, the handler
    finds the record and calls the completion capability. *)
Theorem ask_after_upload
  (now numpages : Z) (document q : string) (documentStore : gmap string DocRecord) :
  JsString.truthy q = true ->
  exists message prompt resume,
    snd (upload now (Some (ParsedPdf document numpages)) documentStore)
    = UploadOk (toString now) numpages
        (totalChunks (make_record document numpages)) message
    /\ ask (mkAskBody (Some q) (Some (toString now)))
           (fst (upload now (Some (ParsedPdf document numpages)) documentStore))
       = Await prompt resume.
Proof.
  intros Hq.
  destruct (ask_found q (toString now) (make_record document numpages)
              (fst (upload now (Some (ParsedPdf document numpages)) documentStore))
              Hq (toString_truthy now))
    as [prompt Hask].
  - rewrite upload_parsed. apply lookup_insert_eq.
  - do 3 eexists. split; [reflexivity | exact Hask].
Qed.

Lemma ask_after_upload_witness :
  JsString.truthy "What are mammals?" = true
  /\ calls_completion
       (ask (mkAskBody (Some "What are mammals?") (Some "9"))
            Sample.store_with_mammals) = true.
Proof.
  split; [reflexivity |].
  destruct (ask_after_upload 9 1
              ("Cats are mammals." +:+ Sample.paragraph_break
               +:+ "Dogs are mammals too.")
              "What are mammals?" ∅ eq_refl)
    as (message & prompt & resume & _ & Hask).
  change (ask (mkAskBody (Some "What are mammals?") (Some "9"))
              Sample.store_with_mammals = Await prompt resume) in Hask.
  rewrite Hask. reflexivity.
Defined.

(** X20.  An upload changes the store at one key at most, the decimal
    rendering of the clock reading; there it stores the record of the
    parsed document, and without a parsed document (no file, or a parse
    failure) it changes nothing. *)
Theorem upload_changes_one_key
  (now : Z) (file : option Parsed) (documentStore : gmap string DocRecord) :
  (forall id, id <> toString now ->
     fst (upload now file documentStore) !! id = documentStore !! id)
  /\ match file with
     | Some (ParsedPdf document numpages) =>
         fst (upload now file documentStore) !! toString now
         = Some (make_record document numpages)
     | _ => fst (upload now file documentStore) = documentStore
     end.
Proof.
  destruct file as [[message | document numpages] |]; cbn [upload fst].
  - split; reflexivity.
  - split; [| apply lookup_insert_eq].
    intros id Hid. apply lookup_insert_ne. congruence.
  - split; reflexivity.
Qed.

(** X21.  Two uploads at the same clock reading share their identifier:
    the record of the second replaces the record of the first. *)
Theorem upload_same_clock_replaces
  (now numpages numpages' : Z) (document document' : string)
  (documentStore : gmap string DocRecord) :
  fst (upload now (Some (ParsedPdf document' numpages'))
         (fst (upload now (Some (ParsedPdf document numpages)) documentStore)))
  = fst (upload now (Some (ParsedPdf document' numpages')) documentStore).
Proof. rewrite !upload_parsed. apply insert_insert_eq. Qed.

(** X22.  In every store the server can reach, every key is a non-empty
    string, and every record counts its segments in [totalChunks], numbers
    them 0, 1, 2, ... in order, and has a vocabulary without repetition. *)
Theorem stored_records_shape (documentStore : gmap string DocRecord) :
  reachable documentStore ->
  forall id doc,
    documentStore !! id = Some doc ->
    JsString.truthy id = true
    /\ totalChunks doc = List.length (chunks doc)
    /\ map chunk_id (chunks doc) = seq 0 (totalChunks doc)
    /\ NoDup (vocabulary doc).
Proof.
  induction 1 as [| now file documentStore Hreach IH]; intros id doc Hdoc.
  - rewrite lookup_empty in Hdoc. discriminate.
  - destruct file as [[message | document numpages] |]; cbn [upload fst] in Hdoc;
      try (eapply IH, Hdoc).
    destruct (decide (toString now = id)) as [Heq | Hne].
    + subst id. rewrite lookup_insert_eq in Hdoc. injection Hdoc as <-.
      split; [apply toString_truthy | apply make_record_shape].
    + rewrite lookup_insert_ne in Hdoc by exact Hne. eapply IH, Hdoc.
Qed.

Lemma stored_records_shape_witness :
  reachable Sample.store_with_long_document
  /\ exists doc,
       Sample.store_with_long_document !! "11" = Some doc
       /\ totalChunks doc = 4%nat
       /\ map chunk_id (chunks doc) = [0; 1; 2; 3]%nat.
Proof.
  assert (Hreach : reachable Sample.store_with_long_document)
    by (apply reachable_upload, reachable_start).
  split; [exact Hreach |].
  assert (Hdoc : Sample.store_with_long_document !! "11"
                 = Some (make_record Sample.long_document 4))
    by apply lookup_insert_eq.
  exists (make_record Sample.long_document 4). split; [exact Hdoc |].
  destruct (stored_records_shape Sample.store_with_long_document Hreach
              "11" (make_record Sample.long_document 4) Hdoc)
    as (_ & _ & Hids & _).
  assert (Htotal : totalChunks (make_record Sample.long_document 4) = 4%nat)
    by (vm_compute; reflexivity).
  split; [exact Htotal |]. rewrite Hids, Htotal. reflexivity.
Defined.

(** X23.  For a stored record, a non-empty identifier and a non-empty
    question, the handler calls the completion capability once; on a reply
    it reports [chunksUsed = min(3, number of segments)], and on a failure
    it answers with status 500 and the message of the failure, or a fixed
    text when that message is empty. *)
Theorem ask_reports_segments_used
  (documentStore : gmap string DocRecord) (id q : string) (doc : DocRecord) :
  documentStore !! id = Some doc ->
  JsString.truthy id = true ->
  JsString.truthy q = true ->
  exists prompt resume,
    ask (mkAskBody (Some q) (Some id)) documentStore = Await prompt resume
    /\ (forall answer, exists contextSize,
          resume (Replied answer)
          = AskOk answer (Nat.min 3 (List.length (chunks doc))) contextSize)
    /\ (forall message,
          resume (Rejected message)
          = Status500 (if JsString.truthy message then message
                       else "Failed to get answer from AI")).
Proof.
  intros Hdoc Hid Hq.
  destruct (ask_found q id doc documentStore Hq Hid Hdoc) as [prompt Hask].
  do 2 eexists. split; [exact Hask |]. split.
  - intros answer. eexists. cbv beta iota.
    rewrite (rank_length _ _ 3) by lia. reflexivity.
  - intros message. reflexivity.
Qed.

Lemma ask_reports_segments_used_witness :
  exists prompt resume,
    ask (mkAskBody (Some "cats?") (Some "11")) Sample.store_with_long_document
    = Await prompt resume
    /\ exists contextSize,
         resume (Replied "Cats.") = AskOk "Cats." 3 contextSize.
Proof.
  destruct (ask_reports_segments_used Sample.store_with_long_document
              "11" "cats?" (make_record Sample.long_document 4)
              (lookup_insert_eq _ _ _) eq_refl eq_refl)
    as (prompt & resume & Hask & Hreply & _).
  exists prompt, resume. split; [exact Hask |].
  destruct (Hreply "Cats.") as [contextSize Hsize].
  exists contextSize. rewrite Hsize. f_equal.
Defined.

(** ** More on the chunker and the ranking *)

Section SingleParagraph.

Lemma split_paragraphs_from_single s :
  forall cur,
    Shape.has_blank_line s = false ->
    JsString.split_paragraphs_from false cur s = [cur +:+ s].
Proof.
  induction s as [| c s IH]; intros cur Hs; simpl.
  - rewrite append_empty_r. reflexivity.
  - simpl in Hs. apply orb_false_elim in Hs as [Hsep Hs].
    rewrite Hsep, (IH _ Hs), append_assoc. reflexivity.
Qed.

Lemma closes_empty chunkSize para : closes chunkSize EmptyString para = false.
Proof. unfold closes. apply andb_false_r. Qed.

Lemma join_skipn_suffix sep (l : list string) :
  forall k, exists prefix,
    JsString.join sep l = prefix +:+ JsString.join sep (skipn k l).
Proof.
  induction l as [| x rest IH]; intros k.
  - exists EmptyString. destruct k; reflexivity.
  - destruct k as [| k]; [exists EmptyString; reflexivity |].
    destruct (IH k) as [prefix Hprefix]. simpl skipn.
    destruct rest as [| y rest].
    + exists x. destruct k; simpl; rewrite append_empty_r; reflexivity.
    + exists (x +:+ sep +:+ prefix).
      rewrite join_cons, Hprefix, !append_assoc. reflexivity.
Qed.

End SingleParagraph.

(** X24.  A text without a blank line is never split, however long it is:
    [chunkText] returns it trimmed as the one segment, or nothing when only
    white space is left. *)
Theorem chunkText_single_paragraph
  (document : string) (chunkSize overlap : Z) :
  Shape.has_blank_line document = false ->
  chunkText document chunkSize overlap
  = if JsString.truthy (JsString.trim document)
    then [mkChunk 0 (JsString.trim document)]
    else [].
Proof.
  intros Hsingle. unfold chunkText, JsString.split_paragraphs.
  rewrite (split_paragraphs_from_single document EmptyString Hsingle).
  change (EmptyString +:+ document) with document.
  cbn [fold_left]. unfold chunk_step. cbn [currentChunk chunk_init].
  rewrite closes_empty. reflexivity.
Qed.

Lemma chunkText_single_paragraph_witness :
  Shape.has_blank_line (Sample.stars 400) = false
  /\ chunkText (Sample.stars 400) 800 150 = [mkChunk 0 (Sample.stars 400)].
Proof.
  assert (H : Shape.has_blank_line (Sample.stars 400) = false)
    by (vm_compute; reflexivity).
  split; [exact H |].
  rewrite (chunkText_single_paragraph (Sample.stars 400) 800 150 H).
  vm_compute. reflexivity.
Defined.

(** X25.  Whatever the overlap, the text carried over from a closed buffer
    is a suffix of that buffer: the overlap never holds text the closed
    segment did not end with. *)
Theorem overlap_seed_is_suffix (overlap : Z) (cur : string) :
  exists prefix, cur = prefix +:+ overlap_seed overlap cur.
Proof.
  unfold overlap_seed, JsArray.slice_from.
  set (k := Z.to_nat _).
  destruct (join_skipn_suffix " " (JsString.split_char JsString.SP cur) k)
    as [prefix Hprefix].
  exists prefix. rewrite <- Hprefix.
  symmetry. apply (join_split_char JsString.SP cur).
Qed.

(** X26.  A document of at most three segments has all of them ranked:
    the ranking with limit 3 is a permutation of the scored candidates. *)
Theorem rank_keeps_all_of_three
  (questionVector : list JsValue) (candidates : list IndexedChunk) :
  (List.length candidates <= 3)%nat ->
  Permutation (rank questionVector candidates 3)
              (map (score_chunk questionVector) candidates).
Proof.
  intros Hlen. unfold rank. rewrite (slice_to_firstn 3).
  rewrite firstn_all2 by (rewrite sort_length, length_map; exact Hlen).
  apply sort_permutation.
Qed.

Lemma rank_keeps_all_of_three_witness :
  Nat.le (List.length [Sample.segment 0 [2; 0]; Sample.segment 1 [1; 0]]) 3
  /\ Permutation
       (rank (Sample.counts [1; 0])
             [Sample.segment 0 [2; 0]; Sample.segment 1 [1; 0]] 3)
       (map (score_chunk (Sample.counts [1; 0]))
            [Sample.segment 0 [2; 0]; Sample.segment 1 [1; 0]]).
Proof.
  assert (H : Nat.le
                (List.length [Sample.segment 0 [2; 0]; Sample.segment 1 [1; 0]])
                3) by (simpl; lia).
  split; [exact H |].
  apply (rank_keeps_all_of_three (Sample.counts [1; 0])
           [Sample.segment 0 [2; 0]; Sample.segment 1 [1; 0]] H).
Defined.
